(** * ha-creality-ws: the resilient WebSocket client [ws_client.py]

    A shallow embedding of [custom_components/ws_client.py] and the
    properties of its frame codec, state aggregator, connection supervisor
    and retrying command sender.

    Modelling conventions.
    - A Python [dict] with string keys is a [gmap string _]; Python compares
      dicts key-wise, which is the extensional equality of [gmap].
    - A Python [str] is a [string] holding the UTF-8 encoding of its code
      points; a [bytes] payload is a [list byte].
    - JSON floats are binary64 values ([PrimFloat.float]), and so are the
      two clock readings the heartbeat task subtracts and compares.  The
      clock readings the loop and the poller store and the backoff delays
      are rationals: their arithmetic is exact in the model, and the
      properties stated of them are those that rounding preserves.
    - Functions of the Python runtime that the module calls ([int], [float],
      [json.loads], [json.dumps]) are parameters of the sections below;
      every theorem holds for all of them.  [bytes.decode] is a parameter of
      the loop as well, and is CPython's UTF-8 decoder where a property is
      about the decoding.
    - An [await] whose outcome is decided by the outside world (a frame
      arriving, a send failing, a timer firing) is an input of the model. *)

From Stdlib Require Import ZArith QArith Lqa PrimFloat Uint63 Ascii String Sorted.
From stdpp Require Import gmap strings list fin_maps pretty.
Set Warnings "-register-all,-inexact-float".
Local Open Scope string_scope.
Local Open Scope list_scope.

(** * Part I: the model *)

(** ** Python values *)

Module Py.

(** What [json.loads] can return, and what the merged state holds. *)
Inductive value :=
| VNone
| VBool (b : bool)
| VInt (n : Z)
| VFloat (f : PrimFloat.float)
| VStr (s : string)
| VList (l : list value)
| VDict (m : gmap string value).

(** [isinstance(v, str)] *)
Definition is_str (v : value) : bool :=
  match v with VStr _ => true | _ => false end.

(** [v == s] for a [str] literal [s]: only an equal [str] compares equal. *)
Definition eq_str (v : value) (s : string) : bool :=
  match v with VStr s' => String.eqb s' s | _ => false end.

(** [d.get(k)]: the value under [k], or [None]. *)
Definition get (d : gmap string value) (k : string) : value :=
  default VNone (d !! k).

(** [d.update(m)]: the entries of [m] overwrite those of [d]. *)
Definition update (d m : gmap string value) : gmap string value := m ∪ d.

(** ["." in s] *)
Fixpoint contains_dot (s : string) : bool :=
  match s with
  | EmptyString => false
  | String c s' => if Ascii.eqb c "."%char then true else contains_dot s'
  end.

End Py.
Import Py.

(** ** Text and bytes

    A [str] is kept as the UTF-8 encoding of its code points, which is how
    [string] literals are read: an ASCII text is its own encoding.  The
    bytes of a binary frame become a [str] through the decoder below. *)

Module Utf8.

Local Open Scope Z_scope.

(** A byte as a number, and back. *)
Definition code (b : Byte.byte) : Z := Z.of_N (Byte.to_N b).

Definition byte_of (z : Z) : Byte.byte :=
  default Byte.x00 (Byte.of_N (Z.to_N z)).

(** [IS_CONTINUATION_BYTE]: a byte [10xxxxxx]. *)
Definition is_continuation (x : Z) : bool := (0x80 <=? x) && (x <=? 0xBF).

(** The code points of [bs.decode("utf-8", "ignore")], as CPython's decoder
    computes them.  At a lead byte it checks the continuation bytes one by
    one; at the first that does not fit it drops the bytes before that one
    and resumes there; a sequence cut short by the end of the input is
    dropped.  Overlong forms ([C0], [C1], [E0 80..9F], [F0 80..8F]),
    surrogates ([ED A0..BF]) and code points above [10FFFF] ([F4 90..],
    [F5..FF]) are errors. *)
Fixpoint decode (bs : list Byte.byte) : list Z :=
  match bs with
  | [] => []
  | b0 :: rest =>
      let ch := code b0 in
      if ch <? 0x80 then ch :: decode rest
      else if ch <? 0xC2 then decode rest
      else if ch <? 0xE0 then
        match rest with
        | [] => []
        | b1 :: rest1 =>
            let ch2 := code b1 in
            if negb (is_continuation ch2) then decode rest
            else Z.shiftl ch 6 + ch2 - (Z.shiftl 0xC0 6 + 0x80) :: decode rest1
        end
      else if ch <? 0xF0 then
        match rest with
        | [] => []
        | b1 :: rest1 =>
            let ch2 := code b1 in
            if negb (is_continuation ch2)
               || (if ch2 <? 0xA0 then ch =? 0xE0 else ch =? 0xED)
            then decode rest
            else
              match rest1 with
              | [] => []
              | b2 :: rest2 =>
                  let ch3 := code b2 in
                  if negb (is_continuation ch3) then decode rest1
                  else Z.shiftl ch 12 + Z.shiftl ch2 6 + ch3
                       - (Z.shiftl 0xE0 12 + Z.shiftl 0x80 6 + 0x80)
                       :: decode rest2
              end
        end
      else if ch <? 0xF5 then
        match rest with
        | [] => []
        | b1 :: rest1 =>
            let ch2 := code b1 in
            if negb (is_continuation ch2)
               || (if ch2 <? 0x90 then ch =? 0xF0 else ch =? 0xF4)
            then decode rest
            else
              match rest1 with
              | [] => []
              | b2 :: rest2 =>
                  let ch3 := code b2 in
                  if negb (is_continuation ch3) then decode rest1
                  else
                    match rest2 with
                    | [] => []
                    | b3 :: rest3 =>
                        let ch4 := code b3 in
                        if negb (is_continuation ch4) then decode rest2
                        else Z.shiftl ch 18 + Z.shiftl ch2 12 + Z.shiftl ch3 6 + ch4
                             - (Z.shiftl 0xF0 18 + Z.shiftl 0x80 12
                                + Z.shiftl 0x80 6 + 0x80)
                             :: decode rest3
                    end
              end
        end
      else decode rest
  end.


(** The UTF-8 encoding of a code point and of a text. *)
Definition encode_point (cp : Z) : list Byte.byte :=
  if cp <? 0x80 then [byte_of cp]
  else if cp <? 0x800 then
    [byte_of (0xC0 + cp / 0x40); byte_of (0x80 + cp mod 0x40)]
  else if cp <? 0x10000 then
    [byte_of (0xE0 + cp / 0x1000); byte_of (0x80 + cp / 0x40 mod 0x40);
     byte_of (0x80 + cp mod 0x40)]
  else
    [byte_of (0xF0 + cp / 0x40000); byte_of (0x80 + cp / 0x1000 mod 0x40);
     byte_of (0x80 + cp / 0x40 mod 0x40); byte_of (0x80 + cp mod 0x40)].

Definition encode (s : list Z) : list Byte.byte := s ≫= encode_point.

End Utf8.

(** The [str] with the given code points. *)
Definition text_of (s : list Z) : string :=
  string_of_list_byte (Utf8.encode s).

(** [raw.decode("utf-8", "ignore")] *)
Definition decode_ignore (raw : list Byte.byte) : string :=
  text_of (Utf8.decode raw).

(** ** Frame codec: [_coerce_numbers] *)

Section Codec.

(** The builtins [int(s)] and [float(s)]; [None] when they raise. *)
Variable py_int : string -> option Z.
Variable py_float : string -> option PrimFloat.float.

(** The body of the [for] loop for one value: the [try] yields the number,
    the [except] falls through to [out[k] = v]. *)
Definition coerce_value (v : value) : value :=
  match v with
  | VStr s =>
      if contains_dot s
      then match py_float s with Some f => VFloat f | None => v end
      else match py_int s with Some n => VInt n | None => v end
  | _ => v
  end.

(** [out = {}; for k, v in d.items(): out[k] = ...; return out] *)
Definition _coerce_numbers (d : gmap string value) : gmap string value :=
  map_fold (fun k v out => <[k := coerce_value v]> out) ∅ d.

End Codec.

(** ** The client object and its connectivity loop *)

(** A frame yielded by [async for raw in ws]: [str] or [bytes]. *)
Inductive frame :=
| Text (s : string)
| Binary (b : list Byte.byte).

(** How an awaited call that the loop guards with [try] ended: it returned,
    it raised an [Exception], or the task was cancelled while it waited
    ([asyncio.CancelledError], which [except Exception] does not catch). *)
Inductive outcome := Returned | Raised | Cancelled.

Inductive level := DEBUG | INFO | WARNING | ERROR.

(** What the loop does to the outside world. *)
Inductive effect :=
| WsSend (text : string)                      (* await ws.send(text) *)
| OnMessage (snapshot : gmap string value)    (* await self._on_message(dict(self._state)) *)
| Log (lvl : level) (msg : string)            (* _LOGGER.<lvl>(msg, ...) *)
| Sleep (timeout : Q).                        (* await asyncio.wait_for(self._stop.wait(), timeout) *)

(** The object returned by [websockets.connect]. *)
Inductive connection := Connection (id : nat).

(** Where the coroutine [_loop] is suspended. *)
Inductive pc :=
| Created                      (* task created, body not entered yet *)
| Connecting                   (* awaiting [websockets.connect] *)
| Receiving                    (* awaiting the next frame of [async for] *)
| Sleeping (sleep_for : Q)     (* awaiting the backoff [wait_for] *)
| Exited.                      (* the coroutine returned or was cancelled *)

(** The loop task: its suspension point and its local variable [backoff]. *)
Record loop := Loop { at_pc : pc; backoff : Q }.

(** The attributes of [K1CClient] that the loop and the public API touch. *)
Record client := Client {
  _state : gmap string value;
  _task : option loop;
  _ws : option connection;
  _stop : bool;
  _connected_once : bool;
  _last_rx : Q;
  _hb_task : bool;            (* [self._hb_task is not None] *)
  _tick_task : bool;          (* [self._tick_task is not None] *)
  _ws_ready : bool
}.

(** [K1CClient.__init__] *)
Definition new_client : client :=
  {| _state := ∅; _task := None; _ws := None; _stop := false;
     _connected_once := false; _last_rx := 0%Q;
     _hb_task := false; _tick_task := false; _ws_ready := false |}.

(** [last_rx_monotonic] *)
Definition last_rx_monotonic (c : client) : Q := _last_rx c.

Definition set_task (t : option loop) (c : client) : client :=
  {| _state := _state c; _task := t; _ws := _ws c; _stop := _stop c;
     _connected_once := _connected_once c; _last_rx := _last_rx c;
     _hb_task := _hb_task c; _tick_task := _tick_task c;
     _ws_ready := _ws_ready c |}.

Definition set_state (s : gmap string value) (c : client) : client :=
  {| _state := s; _task := _task c; _ws := _ws c; _stop := _stop c;
     _connected_once := _connected_once c; _last_rx := _last_rx c;
     _hb_task := _hb_task c; _tick_task := _tick_task c;
     _ws_ready := _ws_ready c |}.

Definition set_last_rx (now : Q) (c : client) : client :=
  {| _state := _state c; _task := _task c; _ws := _ws c; _stop := _stop c;
     _connected_once := _connected_once c; _last_rx := now;
     _hb_task := _hb_task c; _tick_task := _tick_task c;
     _ws_ready := _ws_ready c |}.

Definition set_stop (b : bool) (c : client) : client :=
  {| _state := _state c; _task := _task c; _ws := _ws c; _stop := b;
     _connected_once := _connected_once c; _last_rx := _last_rx c;
     _hb_task := _hb_task c; _tick_task := _tick_task c;
     _ws_ready := _ws_ready c |}.

(** Python's [min(a, b)]: [b] only when [b < a]. *)
Definition py_min (a b : Q) : Q :=
  match (b ?= a)%Q with Lt => b | _ => a end.

(** What the world can do next: a call of the public API, or the event that
    resumes the suspended loop. *)
Inductive event :=
| OpStart                        (* [start()] *)
| OpStopRequest                  (* [stop()], up to and including [ws.close()] *)
| OpStopJoin (joined : bool)     (* [stop()], from [self._task.cancel()] on;
                                    [joined] is false when [await self._task]
                                    raised past [except Exception] *)
| EvTaskStart                    (* the event loop runs the new task *)
| EvConnected (ws : connection) (now : Q)
                                 (* [websockets.connect] returned [ws];
                                    [time.monotonic()] reads [now] *)
| EvConnectFailed (jitter : Q)   (* [websockets.connect] raised;
                                    [random.uniform(0.0, 0.4)] gives [jitter] *)
| EvFrame (raw : frame) (now : Q) (send_res cb_res : outcome)
                                 (* [async for] yields [raw]; [send_res] and
                                    [cb_res] are how [ws.send("ok")] and the
                                    callback end if the frame reaches them *)
| EvClosed (error : bool) (jitter : Q)
                                 (* [async for] ends, by [StopAsyncIteration]
                                    or ([error]) by an exception *)
| EvSleepDone                    (* the backoff wait ended: timeout or stop *)
| EvCancelled.                   (* the loop task is cancelled from outside *)

Section Client.

Variable py_int : string -> option Z.
Variable py_float : string -> option PrimFloat.float.
(** [json.loads(text)]; [None] when it raises. *)
Variable json_loads : string -> option value.
(** [raw.decode("utf-8", "ignore")] *)
Variable bytes_decode : list Byte.byte -> string.
(** The constants imported from [.const]. *)
Variable RETRY_MIN_BACKOFF RETRY_MAX_BACKOFF : Q.

(** Lines 120-129: the body of [async with] before the receive loop. *)
Definition on_connected (ws : connection) (now : Q) (c : client) : client :=
  {| _state := _state c;
     _task := Some (Loop Receiving RETRY_MIN_BACKOFF);
     _ws := Some ws;
     _stop := _stop c;
     _connected_once := true;
     _last_rx := now;
     _hb_task := true;
     _tick_task := true;
     _ws_ready := true |}.

(** Lines 173-181: the [finally] clause. *)
Definition cleanup (c : client) : client :=
  {| _state := _state c; _task := _task c;
     _ws := None;
     _stop := _stop c;
     _connected_once := _connected_once c; _last_rx := _last_rx c;
     _hb_task := false;
     _tick_task := false;
     _ws_ready := false |}.

(** Lines 131-167: the body of [async for raw in ws].  The boolean is true
    when the body was left by [asyncio.CancelledError]. *)
Definition handle_frame (raw : frame) (now : Q) (send_res cb_res : outcome)
    (c : client) : client * list effect * bool :=
  let c := set_last_rx now c in
  let text := match raw with Binary b => bytes_decode b | Text s => s end in
  if String.eqb text "ok" then (c, [], false)
  else match json_loads text with
  | None => (c, [], false)
  | Some (VDict payload) =>
      if eq_str (get payload "ModeCode") "heart_beat"
      then (c, [WsSend "ok"],
            match send_res with Cancelled => true | _ => false end)
      else
        let merged := _coerce_numbers py_int py_float payload in
        let c := set_state (update (_state c) merged) c in
        (c,
         OnMessage (_state c) ::
           match cb_res with
           | Raised => [Log ERROR "K1C on_message failed"]
           | _ => []
           end,
         match cb_res with Cancelled => true | _ => false end)
  | Some _ => (c, [Log DEBUG "K1C WS unexpected frame type"], false)
  end.

(** [except asyncio.CancelledError: break] with its [finally], then the
    statement after the [while]. *)
Definition cancelled_in_try (bk : Q) (c : client) : client * list effect :=
  (set_task (Some (Loop Exited bk)) (cleanup c),
   [Log DEBUG "K1C WS loop exited"]).

(** Lines 183-187: the code between the [finally] and the backoff wait. *)
Definition enter_backoff (bk jitter : Q) (c : client) : client * list effect :=
  let sleep_for := py_min (bk * (1.8 + jitter))%Q RETRY_MAX_BACKOFF in
  (set_task (Some (Loop (Sleeping sleep_for) bk)) c, [Sleep sleep_for]).

(** The test [while not self._stop.is_set()] and what follows it. *)
Definition loop_head (bk : Q) (c : client) : client * list effect :=
  if _stop c
  then (set_task (Some (Loop Exited bk)) c, [Log DEBUG "K1C WS loop exited"])
  else (set_task (Some (Loop Connecting bk)) c, [Log DEBUG "K1C WS connecting"]).

(** Delivery of a [CancelledError] to the loop task. *)
Definition cancel_loop (l : loop) (c : client) : client * list effect :=
  match at_pc l with
  | Connecting | Receiving => cancelled_in_try (backoff l) c
  | Created | Sleeping _ => (set_task (Some (Loop Exited (backoff l))) c, [])
  | Exited => (c, [])
  end.

(** One resumption of [_loop]. An event that does not match the suspension
    point cannot occur there and leaves the client as it is. *)
Definition _loop (e : event) (l : loop) (c : client) : client * list effect :=
  match e, at_pc l with
  | EvTaskStart, Created => loop_head RETRY_MIN_BACKOFF c
  | EvConnected ws now, Connecting =>
      (on_connected ws now c, [Log INFO "K1C WS connected"])
  | EvConnectFailed jitter, Connecting =>
      let '(c', effs) := enter_backoff (backoff l) jitter (cleanup c) in
      (c', Log WARNING "K1C WS connection error" :: effs)
  | EvFrame raw now send_res cb_res, Receiving =>
      let '(c', effs, cancelled) := handle_frame raw now send_res cb_res c in
      if cancelled
      then let '(c'', effs') := cancelled_in_try (backoff l) c' in
           (c'', effs ++ effs')
      else (c', effs)
  | EvClosed error jitter, Receiving =>
      let '(c', effs) := enter_backoff (backoff l) jitter (cleanup c) in
      (c', (if error then [Log WARNING "K1C WS connection error"] else []) ++ effs)
  | EvSleepDone, Sleeping sleep_for =>
      loop_head (py_min sleep_for RETRY_MAX_BACKOFF) c
  | EvCancelled, _ => cancel_loop l c
  | _, _ => (c, [])
  end.

(** One event on the client. *)
Definition step (e : event) (c : client) : client * list effect :=
  match e with
  | OpStart =>
      match _task c with
      | Some _ => (c, [])
      | None => (set_task (Some (Loop Created RETRY_MIN_BACKOFF)) (set_stop false c), [])
      end
  | OpStopRequest => (set_stop true c, [])
  | OpStopJoin joined =>
      match _task c with
      | None => (c, [])
      | Some l =>
          let '(c', effs) := cancel_loop l c in
          (if joined then set_task None c' else c', effs)
      end
  | _ =>
      match _task c with
      | None => (c, [])
      | Some l => _loop e l c
      end
  end.

(** A whole history: the final client and everything the loop did. *)
Fixpoint run (es : list event) (c : client) : client * list effect :=
  match es with
  | [] => (c, [])
  | e :: es' =>
      let '(c', effs) := step e c in
      let '(c'', effs') := run es' c' in
      (c'', effs ++ effs')
  end.

End Client.

(** ** Waiting on the two [asyncio.Event]s *)

Section Waiting.

Variable py_int : string -> option Z.
Variable py_float : string -> option PrimFloat.float.
Variable json_loads : string -> option value.
Variable bytes_decode : list Byte.byte -> string.
Variable RETRY_MIN_BACKOFF RETRY_MAX_BACKOFF : Q.

Let step' := step py_int py_float json_loads bytes_decode
                  RETRY_MIN_BACKOFF RETRY_MAX_BACKOFF.

Let run' := run py_int py_float json_loads bytes_decode
                RETRY_MIN_BACKOFF RETRY_MAX_BACKOFF.

(** [await ev.wait()] under a running timer.  [window] lists what happens
    to the client before the timer fires.  The wait returns as soon as the
    flag is seen set ([true]); when the window is used up the timer fires
    ([false]). *)
Fixpoint wait_until (flag : client -> bool) (window : list event) (c : client)
    : bool * client :=
  if flag c then (true, c)
  else match window with
       | [] => (false, c)
       | e :: window' => wait_until flag window' (fst (step' e c))
       end.

(** [await asyncio.wait_for(ev.wait(), timeout)]; [false] is [TimeoutError].
    With [timeout <= 0] asyncio cancels the wait before it has run and
    raises [TimeoutError] whether the flag is set or not; [window] is then
    what happens to the client while the cancellation is awaited.  With a
    positive timeout the wait runs under the timer. *)
Definition wait_for_flag (flag : client -> bool) (timeout : Q)
    (window : list event) (c : client) : bool * client :=
  if Qle_bool timeout 0 then (false, (run' window c).1)
  else wait_until flag window c.

(** [wait_first_connect]: [True] unless [TimeoutError]. *)
Definition wait_first_connect (timeout : Q) (window : list event) (c : client)
    : bool * client :=
  wait_for_flag _connected_once timeout window c.

(** [wait_connected]: [True] unless [TimeoutError]. *)
Definition wait_connected (timeout : Q) (window : list event) (c : client)
    : bool * client :=
  wait_for_flag _ws_ready timeout window c.

End Waiting.

(** ** The command sender *)

Inductive message :=
| NotConnected                   (* "WebSocket not connected" *)
| LinkNotAvailable (wait : Q).   (* f"printer link not available after {wait}s" *)

(** Exceptions that reach [send_set_retry]: the two [RuntimeError]s the
    module raises itself, with the [__cause__] set by [raise ... from], and
    whatever [json.dumps] or [ws.send] raises.  These are the exceptions
    [except Exception] catches; the implicit [__context__] link is not
    represented. *)
Inductive exn :=
| RuntimeError (msg : message) (cause : option exn)
| OtherError (name : string).

Inductive flag := ConnectedOnce | WsReady.

(** The suspension points of the sending coroutines, indexed by what the
    coroutine gets back when it is resumed. *)
Inductive awaitable : Type -> Type :=
| LoadWs : awaitable (option connection)
    (* [ws = self._ws], read while holding [self._send_lock] *)
| SendText (ws : connection) (text : string) : awaitable (option exn)
    (* [await ws.send(text)]; [Some e] when it raises [e] *)
| WaitFor (which : flag) (timeout : Q) : awaitable bool.
    (* [await asyncio.wait_for(ev.wait(), timeout)]; [false] on [TimeoutError] *)

(** A coroutine: it returns, raises, or awaits and goes on with the answer. *)
Inductive coro (R : Type) : Type :=
| Ret (r : R)
| Raise (e : exn)
| Await {X : Type} (a : awaitable X) (k : X -> coro R).

Arguments Ret {R} r.
Arguments Raise {R} e.
Arguments Await {R X} a k.

Fixpoint bind {A B} (p : coro A) (f : A -> coro B) : coro B :=
  match p with
  | Ret r => f r
  | Raise e => Raise e
  | Await a k => Await a (fun x => bind (k x) f)
  end.

(** [try: p  except Exception as e: h e] *)
Fixpoint try_except {A} (p : coro A) (h : exn -> coro A) : coro A :=
  match p with
  | Ret r => Ret r
  | Raise e => h e
  | Await a k => Await a (fun x => try_except (k x) h)
  end.

(** One entry of the record of an execution: the awaited call and its answer. *)
Inductive obs :=
| ObsLoadWs (r : option connection)
| ObsSend (ws : connection) (text : string) (r : option exn)
| ObsWait (which : flag) (timeout : Q) (r : bool).

Definition observe {X} (a : awaitable X) : X -> obs :=
  match a in awaitable X return X -> obs with
  | LoadWs => ObsLoadWs
  | SendText ws text => ObsSend ws text
  | WaitFor which timeout => ObsWait which timeout
  end.

(** The rest of the world, as seen by a sending coroutine: it answers every
    awaited call and moves on. *)
Definition world (S : Type) : Type := forall X, awaitable X -> S -> X * S.

(** Run a coroutine to completion against a world. *)
Fixpoint exec {S R} (w : world S) (p : coro R) (s : S) : (R + exn) * S * list obs :=
  match p with
  | Ret r => (inl r, s, [])
  | Raise e => (inr e, s, [])
  | Await a k =>
      let '(x, s') := w _ a s in
      let '(r, s'', tr) := exec w (k x) s' in
      (r, s'', observe a x :: tr)
  end.

Section Sender.

(** [json.dumps(obj, separators=(",", ":"))]: the text, or the exception it
    raises (an [int] too long to print, an object that is not JSON). *)
Variable json_dumps : value -> string + exn.

(** [_send_json]: the argument of [ws.send] is evaluated after the test of
    [ws], so a request that cannot be serialised raises there, before any
    write. *)
Definition _send_json (obj : value) : coro unit :=
  Await LoadWs (fun ws =>
    match ws with
    | None => Raise (RuntimeError NotConnected None)
    | Some ws =>
        match json_dumps obj with
        | inr e => Raise e
        | inl text =>
            Await (SendText ws text) (fun r =>
              match r with
              | None => Ret tt
              | Some e => Raise e
              end)
        end
    end).

(** [{"method": "set", "params": params}] *)
Definition set_request (params : gmap string value) : value :=
  VDict (<["method" := VStr "set"]> (<["params" := VDict params]> ∅)).

(** [send_set] *)
Definition send_set (params : gmap string value) : coro unit :=
  _send_json (set_request params).

(** [wait_connected], as the sender calls it. *)
Definition await_connected (timeout : Q) : coro bool :=
  Await (WaitFor WsReady timeout) (fun done => Ret done).

(** [send_set_retry] *)
Definition send_set_retry (wait_reconnect : Q) (params : gmap string value)
    : coro unit :=
  try_except (_send_json (set_request params)) (fun first_exc =>
    bind (await_connected wait_reconnect) (fun ok =>
      if negb ok
      then Raise (RuntimeError (LinkNotAvailable wait_reconnect) (Some first_exc))
      else _send_json (set_request params))).

End Sender.

(** ** The sender and the loop together

    One world for the sending coroutines: the client object itself, with the
    loop running next to them.  A read of [self._ws] sees the client; a
    write to the socket fails or not as scripted; a wait for a flag lets the
    loop take events of the next window. *)

Record sched := Sched {
  the_client : client;
  send_results : list (option exn);
  windows : list (list event)
}.

Definition flag_of (which : flag) : client -> bool :=
  match which with
  | ConnectedOnce => _connected_once
  | WsReady => _ws_ready
  end.

Section ClientWorld.

Variable py_int : string -> option Z.
Variable py_float : string -> option PrimFloat.float.
Variable json_loads : string -> option value.
Variable bytes_decode : list Byte.byte -> string.
Variable RETRY_MIN_BACKOFF RETRY_MAX_BACKOFF : Q.

Definition client_world : world sched :=
  fun X a =>
    match a in awaitable X return sched -> X * sched with
    | LoadWs => fun s => (_ws (the_client s), s)
    | SendText _ _ => fun s =>
        match send_results s with
        | [] => (None, s)
        | r :: rs => (r, Sched (the_client s) rs (windows s))
        end
    | WaitFor which timeout => fun s =>
        let '(done, c) :=
          wait_for_flag py_int py_float json_loads bytes_decode
            RETRY_MIN_BACKOFF RETRY_MAX_BACKOFF
            (flag_of which) timeout (hd [] (windows s)) (the_client s) in
        (done, Sched c (send_results s) (tl (windows s)))
    end.

End ClientWorld.

(** ** The helper tasks: [_periodic_gets] and [_heartbeat]

    Both run next to the receive loop while a connection is live.  As for
    the loop, what an [await] meets is an input: the clock reading, the
    value of [self._ws], how a call of [_send_json], a ping or a sleep
    ends.  [Cancelled] (for a sleep: [false]) is the delivery of
    [asyncio.CancelledError] at that point. *)

(** The two status queries. *)
Inductive status_request := ReqPrinterPara | ReqPrintObjects.

(** [{"method": "get", "params": {"ReqPrinterPara": 1}}] and
    [{"method": "get", "params": {"reqPrintObjects": 1}}], the objects
    passed to [_send_json]. *)
Definition get_request (r : status_request) : value :=
  VDict (<["method" := VStr "get"]>
           (<["params" :=
                VDict (<[match r with
                         | ReqPrinterPara => "ReqPrinterPara"
                         | ReqPrintObjects => "reqPrintObjects"
                         end := VInt 1]> ∅)]> ∅)).

Definition GET_REQPRINTERPARA_SEC : Q := 5.
Definition GET_PRINT_OBJECTS_SEC : Q := 2.

(** What one iteration of the poller's [while True] meets. *)
Record poll_tick := PollTick {
  tick_now : Q;                   (* [now = time.monotonic()] *)
  tick_ws : option connection;    (* [ws = self._ws] *)
  para_res : outcome;             (* [_send_json] of the first query, if called *)
  objs_res : outcome;             (* [_send_json] of the second query, if called *)
  tick_slept : bool               (* [await asyncio.sleep(0.2)] returned *)
}.

(** The local variables [t_para] and [t_objs]. *)
Record poller := Poller { t_para : Q; t_objs : Q }.

(** Lines 241-248: the second query and the sleep.  [sent] is what the
    iteration has passed to [_send_json] so far. *)
Definition poll_objects (t : poll_tick) (p : poller) (sent : list status_request)
    : poller * list status_request * bool :=
  if Qle_bool GET_PRINT_OBJECTS_SEC (tick_now t - t_objs p)
  then match objs_res t with
       | Cancelled => (p, sent ++ [ReqPrintObjects], false)
       | _ => (Poller (t_para p) (tick_now t), sent ++ [ReqPrintObjects],
               tick_slept t)
       end
  else (p, sent, tick_slept t).

(** Lines 229-248: one iteration.  It gives the new timestamps, the queries
    passed to [_send_json] in order, and whether the loop goes round again
    ([false]: [break], or [CancelledError] and [return]). *)
Definition poll_iteration (t : poll_tick) (p : poller)
    : poller * list status_request * bool :=
  match tick_ws t with
  | None => (p, [], false)
  | Some _ =>
      if Qle_bool GET_REQPRINTERPARA_SEC (tick_now t - t_para p)
      then match para_res t with
           | Cancelled => (p, [ReqPrinterPara], false)
           | _ => poll_objects t (Poller (tick_now t) (t_objs p)) [ReqPrinterPara]
           end
      else poll_objects t p []
  end.

(** The iterations run on the given inputs, each with its clock reading and
    its queries, and whether the task has returned. *)
Fixpoint poll_from (p : poller) (ticks : list poll_tick)
    : list (Q * list status_request) * bool :=
  match ticks with
  | [] => ([], false)
  | t :: ticks' =>
      let '(p', sent, again) := poll_iteration t p in
      if again
      then let '(its, returned) := poll_from p' ticks' in
           ((tick_now t, sent) :: its, returned)
      else ([(tick_now t, sent)], true)
  end.

(** [_periodic_gets]: [t_para = 0.0; t_objs = 0.0; while True: ...] *)
Definition _periodic_gets (ticks : list poll_tick)
    : list (Q * list status_request) * bool :=
  poll_from (Poller 0 0) ticks.

(** What the heartbeat task meets before its loop.  The two clock readings
    are the binary64 values the test of line 198 subtracts and compares. *)
Record hb_start := HbStart {
  grace_slept : bool;             (* [await asyncio.sleep(PROBE_ON_SILENCE_SECS)] returned *)
  grace_now : PrimFloat.float;    (* [time.monotonic()] after it *)
  grace_last_rx : PrimFloat.float; (* [self._last_rx] then *)
  probe_res : outcome             (* [_send_json] of the probe, if called *)
}.

(** What one iteration of the heartbeat's [while True] meets. *)
Record hb_round := HbRound {
  round_slept : bool;             (* [await asyncio.sleep(HEARTBEAT_SECS)] returned *)
  round_ws : option connection;   (* [ws = self._ws] *)
  ping_res : outcome              (* [pong = await ws.ping()] and
                                     [await asyncio.wait_for(pong, timeout=5.0)] *)
}.

(** What the heartbeat task does. *)
Inductive hb_action :=
| Probe (r : status_request)    (* [await self._send_json(...)] *)
| Ping (ws : connection)        (* [await ws.ping()] and the wait for the pong *)
| LogPingFailed                 (* [_LOGGER.debug("K1C WS ping failed; forcing reconnect")] *)
| ForceClose (ws : connection). (* [await ws.close()]; however it ends, the task is over *)

(** Lines 204-218: the [while True] of [_heartbeat]. *)
Fixpoint ping_rounds (rounds : list hb_round) : list hb_action * bool :=
  match rounds with
  | [] => ([], false)
  | r :: rounds' =>
      if negb (round_slept r) then ([], true)
      else match round_ws r with
           | None => ([], true)
           | Some ws =>
               match ping_res r with
               | Returned =>
                   let '(acts, returned) := ping_rounds rounds' in
                   (Ping ws :: acts, returned)
               | Raised => ([Ping ws; LogPingFailed; ForceClose ws], true)
               | Cancelled => ([Ping ws], true)
               end
           end
  end.

Section Heartbeat.

(** The constant imported from [.const], as the binary64 value the
    comparison of line 198 sees. *)
Variable PROBE_ON_SILENCE_SECS : PrimFloat.float.

(** [time.monotonic() - self._last_rx > PROBE_ON_SILENCE_SECS]: the
    difference is rounded to binary64 before it is compared. *)
Definition silent (s : hb_start) : bool :=
  PrimFloat.ltb PROBE_ON_SILENCE_SECS
    (PrimFloat.sub (grace_now s) (grace_last_rx s)).

(** [_heartbeat]: what the task has done on the given inputs, and whether
    it has returned. *)
Definition _heartbeat (s : hb_start) (rounds : list hb_round)
    : list hb_action * bool :=
  if negb (grace_slept s) then ([], true)
  else if silent s
       then match probe_res s with
            | Cancelled => ([Probe ReqPrinterPara], true)
            | _ => let '(acts, returned) := ping_rounds rounds in
                   (Probe ReqPrinterPara :: acts, returned)
            end
       else ping_rounds rounds.

End Heartbeat.

(** * Part II: the vocabulary of the properties *)

(** ** What the loop did *)

(** The snapshots handed to the observer, in order. *)
Definition callbacks (effs : list effect) : list (gmap string value) :=
  omap (fun e => match e with OnMessage s => Some s | _ => None end) effs.

(** The texts written to the socket by the loop, in order. *)
Definition outbound (effs : list effect) : list string :=
  omap (fun e => match e with WsSend t => Some t | _ => None end) effs.

(** The backoff delays slept, in order. *)
Definition sleeps (effs : list effect) : list Q :=
  omap (fun e => match e with Sleep d => Some d | _ => None end) effs.

(** ** Merging *)

(** Last-writer-wins, in the words of the spec: a key maps to its value in
    the last mapping that contains it. *)
Definition last_writer (k : string) (ups : list (gmap string value))
    : option value :=
  match List.find (fun u => bool_decide (is_Some (u !! k))) (reverse ups) with
  | Some u => u !! k
  | None => None
  end.

(** The snapshot after each of a series of merges. *)
Fixpoint snapshots (acc : gmap string value) (ups : list (gmap string value))
    : list (gmap string value) :=
  match ups with
  | [] => []
  | u :: ups' => update acc u :: snapshots (update acc u) ups'
  end.

(** ** Frames, suspension points and schedules *)

Section Observations.

Variable py_int : string -> option Z.
Variable py_float : string -> option PrimFloat.float.
Variable json_loads : string -> option value.
Variable bytes_decode : list Byte.byte -> string.
Variable RETRY_MIN_BACKOFF RETRY_MAX_BACKOFF : Q.

Local Abbreviation step := (step py_int py_float json_loads bytes_decode
                              RETRY_MIN_BACKOFF RETRY_MAX_BACKOFF).

(** The text of a frame: line 134-137. *)
Definition frame_text (raw : frame) : string :=
  match raw with Binary b => bytes_decode b | Text s => s end.

(** A state-update frame (section 4.2 of the spec) and its decoded mapping:
    not the acknowledgement text, a JSON object, not a heartbeat request. *)
Definition state_update (raw : frame) : option (gmap string value) :=
  if String.eqb (frame_text raw) "ok" then None
  else match json_loads (frame_text raw) with
       | Some (VDict d) =>
           if eq_str (get d "ModeCode") "heart_beat" then None else Some d
       | _ => None
       end.

(** The loop is suspended in [async for raw in ws]. *)
Definition receiving (c : client) : bool :=
  match _task c with
  | Some l => match at_pc l with Receiving => true | _ => false end
  | None => false
  end.

(** The update mapping an event delivers: that of a state-update frame that
    arrives while the loop is receiving. *)
Definition delivered_update (e : event) (c : client)
    : option (gmap string value) :=
  match e with
  | EvFrame raw _ _ _ => if receiving c then state_update raw else None
  | _ => None
  end.

(** The update mappings delivered by a history, in arrival order. *)
Fixpoint delivered_updates (es : list event) (c : client)
    : list (gmap string value) :=
  match es with
  | [] => []
  | e :: es' =>
      option_list (delivered_update e c) ++ delivered_updates es' (step e c).1
  end.

(** The loop is suspended in [websockets.connect]. *)
Definition connecting (c : client) : bool :=
  match _task c with
  | Some l => match at_pc l with Connecting => true | _ => false end
  | None => false
  end.

(** The events at which the loop reads the clock. *)
Definition reads_clock (e : event) : bool :=
  match e with
  | EvConnected _ _ | EvFrame _ _ _ _ => true
  | _ => false
  end.

(** Any event but a successful connection. *)
Definition no_connection (e : event) : Prop :=
  match e with EvConnected _ _ => False | _ => True end.

(** While the latch is unset, nothing has been received: the timestamp is
    the initial one and the loop is not in its receive loop. *)
Definition never_connected (c : client) : Prop :=
  _connected_once c = false -> _last_rx c = 0%Q /\ receiving c = false.

(** A failed connection attempt, a disconnect, or the wait that follows. *)
Definition failure (e : event) : Prop :=
  match e with
  | EvConnectFailed _ | EvClosed _ _ | EvSleepDone => True
  | _ => False
  end.

(** [random.uniform(0.0, 0.4)] returned a number between its bounds. *)
Definition jitter_in_range (e : event) : Prop :=
  match e with
  | EvConnectFailed j | EvClosed _ j => (0 <= j /\ j <= 0.4)%Q
  | _ => True
  end.

(** The delay the loop is at: the one it is sleeping, else [backoff]. *)
Definition current_delay (c : client) : Q :=
  match _task c with
  | Some l => match at_pc l with Sleeping s => s | _ => backoff l end
  | None => 0
  end.

(** [backoff] lies between 0 and the maximum, and a delay being slept lies
    between [backoff] and the maximum. *)
Definition backoff_bounded (c : client) : Prop :=
  match _task c with
  | Some l =>
      (0 <= backoff l /\ backoff l <= RETRY_MAX_BACKOFF)%Q /\
      match at_pc l with
      | Sleeping s => (backoff l <= s /\ s <= RETRY_MAX_BACKOFF)%Q
      | _ => True
      end
  | None => True
  end.

End Observations.

(** ** Well-formed text

    What the decoder is measured against: Unicode scalar values (code
    points up to [10FFFF] that are not surrogates), and the bytes that
    occur in no well-formed sequence or only inside one. *)

Definition is_scalar (cp : Z) : bool :=
  ((0 <=? cp) && (cp <? 0x110000) && negb ((0xD800 <=? cp) && (cp <? 0xE000)))%Z.

(** A text all of whose code points are scalar values. *)
Definition well_formed (s : list Z) : Prop :=
  Forall (fun cp => is_scalar cp = true) s.

(** A byte that cannot start a sequence: a continuation byte, [C0], [C1],
    or [F5] and above. *)
Definition undecodable (b : Byte.byte) : bool :=
  (((0x80 <=? Utf8.code b) && (Utf8.code b <? 0xC2)) || (0xF5 <=? Utf8.code b))%Z.

(** ** Send attempts *)

(** One call of [_send_json] as the spec describes a send attempt: it fails
    with "not connected" when there is no session, and otherwise writes the
    frame once and succeeds or fails as the write does.  [dumped] is what
    serialising the request gives; a request that cannot be serialised makes
    the attempt fail with the serialiser's exception and nothing is written. *)
Inductive attempt (dumped : string + exn) : list obs -> unit + exn -> Prop :=
| attempt_no_session :
    attempt dumped [ObsLoadWs None] (inr (RuntimeError NotConnected None))
| attempt_not_serialised ws e :
    dumped = inr e ->
    attempt dumped [ObsLoadWs (Some ws)] (inr e)
| attempt_sent ws text :
    dumped = inl text ->
    attempt dumped [ObsLoadWs (Some ws); ObsSend ws text None] (inl tt)
| attempt_failed ws text e :
    dumped = inl text ->
    attempt dumped [ObsLoadWs (Some ws); ObsSend ws text (Some e)] (inr e).

(** [sendWithRetry] in the words of the spec (section 4.7): one attempt; on
    failure one wait for the live connection; then either one more attempt,
    whose result is the result, or the link-unavailable error that carries
    the first failure. *)
Inductive send_with_retry (wait : Q) (dumped : string + exn)
    : list obs -> unit + exn -> Prop :=
| retry_not_needed tr :
    attempt dumped tr (inl tt) ->
    send_with_retry wait dumped tr (inl tt)
| retry_timed_out tr first_exc :
    attempt dumped tr (inr first_exc) ->
    send_with_retry wait dumped (tr ++ [ObsWait WsReady wait false])
      (inr (RuntimeError (LinkNotAvailable wait) (Some first_exc)))
| retry_once tr first_exc tr' r :
    attempt dumped tr (inr first_exc) ->
    attempt dumped tr' r ->
    send_with_retry wait dumped (tr ++ ObsWait WsReady wait true :: tr') r.

(** The writes to the socket in a record. *)
Definition physical_sends (tr : list obs) : list obs :=
  List.filter (fun o => match o with ObsSend _ _ _ => true | _ => false end) tr.

(** The waits for an event in a record. *)
Definition waits (tr : list obs) : list obs :=
  List.filter (fun o => match o with ObsWait _ _ _ => true | _ => false end) tr.

(** The calls of [_send_json] in a record: each starts by reading [self._ws]. *)
Definition attempts (tr : list obs) : list obs :=
  List.filter (fun o => match o with ObsLoadWs _ => true | _ => false end) tr.

(** ** Sessions, bounds and growth *)

(** [self._ws is not None] *)
Definition has_session (c : client) : bool :=
  match _ws c with Some _ => true | None => false end.

(** The suspension point of the loop task, if there is a task. *)
Definition loop_pc (c : client) : option pc := at_pc <$> _task c.

(** [backoff] lies between the two constants, and a delay being slept lies
    between [backoff] and the maximum. *)
Definition backoff_in_range (lo hi : Q) (c : client) : Prop :=
  match _task c with
  | Some l =>
      (lo <= backoff l /\ backoff l <= hi)%Q /\
      match at_pc l with
      | Sleeping s => (backoff l <= s /\ s <= hi)%Q
      | _ => True
      end
  | None => True
  end.

(** A delay that grows by half at each of [n] failures, with no cap:
    [b * 1.5^n].  The loop multiplies by [1.8 + jitter]; the factor 3/2
    stays below what that product can lose when its two operations are
    rounded to binary64. *)
Fixpoint after_failures (b : Q) (n : nat) : Q :=
  match n with
  | O => b
  | S n' => (after_failures b n' * 1.5)%Q
  end.

(** The writes that returned normally in a record. *)
Definition successful_sends (tr : list obs) : list obs :=
  List.filter
    (fun o => match o with ObsSend _ _ None => true | _ => false end) tr.

(** The session handle, the two helper tasks and the readiness flag are all
    set, or all unset, with the loop in its receive loop or not. *)
Definition session_consistent (c : client) : Prop :=
  has_session c = receiving c /\ _hb_task c = receiving c /\
  _tick_task c = receiving c /\ _ws_ready c = receiving c.

(** ** Helper tasks *)

Definition status_request_eqb (a b : status_request) : bool :=
  match a, b with
  | ReqPrinterPara, ReqPrinterPara | ReqPrintObjects, ReqPrintObjects => true
  | _, _ => false
  end.

(** The cadence of a query. *)
Definition cadence (r : status_request) : Q :=
  match r with
  | ReqPrinterPara => GET_REQPRINTERPARA_SEC
  | ReqPrintObjects => GET_PRINT_OBJECTS_SEC
  end.

(** The poller's timestamp for a query. *)
Definition last_sent (r : status_request) (p : poller) : Q :=
  match r with
  | ReqPrinterPara => t_para p
  | ReqPrintObjects => t_objs p
  end.

(** The iteration passed query [r] to [_send_json]. *)
Definition asks (r : status_request) (it : Q * list status_request) : bool :=
  existsb (status_request_eqb r) it.2.

(** The clock readings of the iterations that asked [r]. *)
Definition request_times (r : status_request)
    (its : list (Q * list status_request)) : list Q :=
  (List.filter (asks r) its).*1.

(** Each time is at least [gap] after the one before it, the first one at
    least [gap] after [prev]. *)
Fixpoint spaced (gap prev : Q) (times : list Q) : Prop :=
  match times with
  | [] => True
  | x :: times' => (prev + gap <= x)%Q /\ spaced gap x times'
  end.

(** The same inputs with every failed [_send_json] turned into a success. *)
Definition forgive_outcome (o : outcome) : outcome :=
  match o with Raised => Returned | _ => o end.

Definition forgive (t : poll_tick) : poll_tick :=
  PollTick (tick_now t) (tick_ws t) (forgive_outcome (para_res t))
           (forgive_outcome (objs_res t)) (tick_slept t).

Definition is_probe (a : hb_action) : bool :=
  match a with Probe _ => true | _ => false end.

Definition is_ping (a : hb_action) : bool :=
  match a with Ping _ => true | _ => false end.

(** A heartbeat round that goes through: the sleep returned, there is a
    session, the pong came back in time. *)
Definition healthy (r : hb_round) : bool :=
  round_slept r &&
  match round_ws r, ping_res r with
  | Some _, Returned => true
  | _, _ => false
  end.

(** ** A concrete runtime for the examples

    The theorems below hold for every [int], [float], [json.loads] and
    [json.dumps].  The concrete inputs of the examples are evaluated with
    the following fragments of them. *)

Module Runtime.

Definition digit (c : ascii) : option Z :=
  let n := Z.of_N (N_of_ascii c) in
  if ((48 <=? n) && (n <=? 57))%Z then Some (n - 48)%Z else None.

Fixpoint digits (s : string) (acc : Z) : option Z :=
  match s with
  | EmptyString => Some acc
  | String c s' =>
      match digit c with
      | Some d => digits s' (10 * acc + d)%Z
      | None => None
      end
  end.

(** [int(s)] on plain ASCII literals: an optional sign and at least one digit. *)
Definition int (s : string) : option Z :=
  match s with
  | EmptyString => None
  | String "-" (String _ _ as s') => Z.opp <$> digits s' 0
  | String "+" (String _ _ as s') => digits s' 0
  | _ => digits s 0
  end.

(** The text before and after the first ["."]. *)
Fixpoint split_dot (s : string) : string * option string :=
  match s with
  | EmptyString => (EmptyString, None)
  | String c s' =>
      if Ascii.eqb c "."%char then (EmptyString, Some s')
      else let '(a, b) := split_dot s' in (String c a, b)
  end.

(** [10^k] in binary64, exact up to [k = 22]: up to [10^18] the power fits
    63 bits and has at most 53 significant bits; beyond, the product of
    two such powers is still a binary64 value. *)
Definition pow10 (k : nat) : PrimFloat.float :=
  if (k <=? 18)%nat
  then PrimFloat.of_uint63 (Uint63.of_Z (10 ^ Z.of_nat k))
  else PrimFloat.mul (PrimFloat.of_uint63 (Uint63.of_Z (10 ^ 18)))
                     (PrimFloat.of_uint63 (Uint63.of_Z (10 ^ Z.of_nat (k - 18)))).

(** [float(s)] on plain ASCII literals [digits.digits] with an optional
    sign, as long as the digits fit 53 bits and there are at most 22
    decimals: numerator and denominator are then exact and the quotient is
    rounded once, as [float] rounds.  Other texts are outside this
    fragment. *)
Definition unsigned_float (s : string) : option PrimFloat.float :=
  match split_dot s with
  | (a, Some b) =>
      let k := String.length b in
      match digits (a ++ b)%string 0 with
      | Some m =>
          if negb (String.length (a ++ b)%string =? 0)%nat
             && (m <? 2 ^ 53)%Z && (k <=? 22)%nat
          then Some (PrimFloat.div (PrimFloat.of_uint63 (Uint63.of_Z m)) (pow10 k))
          else None
      | None => None
      end
  | (_, None) => None
  end.

Definition float (s : string) : option PrimFloat.float :=
  match s with
  | String "-" s' => PrimFloat.opp <$> unsigned_float s'
  | String "+" s' => unsigned_float s'
  | _ => unsigned_float s
  end.

(** [b.decode("utf-8", "ignore")] *)
Definition decode (b : list Byte.byte) : string := decode_ignore b.

(** The text of a JSON object whose values are strings, as the printer
    writes it: [{"k":"v",...}]. *)
Definition quoted (s : string) : string :=
  (String (ascii_of_nat 34) s ++ String (ascii_of_nat 34) EmptyString)%string.

Definition member (kv : string * string) : string :=
  (quoted kv.1 ++ ":" ++ quoted kv.2)%string.

Fixpoint members (kvs : list (string * string)) : string :=
  match kvs with
  | [] => EmptyString
  | [kv] => member kv
  | kv :: kvs' => (member kv ++ "," ++ members kvs')%string
  end.

Definition object_text (kvs : list (string * string)) : string :=
  ("{" ++ members kvs ++ "}")%string.

Definition heartbeat_frame : list (string * string) :=
  [("ModeCode", "heart_beat")].

Definition status_frame : list (string * string) :=
  [("temp", "23.5"); ("state", "printing")].

Definition progress_frame : list (string * string) :=
  [("progress", "42")].

Definition object_value (kvs : list (string * string)) : value :=
  VDict (list_to_map (prod_map id VStr <$> kvs)).

(** [json.loads] on the frames of the examples. *)
Definition loads (text : string) : option value :=
  if String.eqb text (object_text heartbeat_frame) then
    Some (object_value heartbeat_frame)
  else if String.eqb text (object_text status_frame) then
    Some (object_value status_frame)
  else if String.eqb text (object_text progress_frame) then
    Some (object_value progress_frame)
  else if String.eqb text "[1]" then
    Some (VList [VInt 1])
  else None.

(** [sys.get_int_max_str_digits()]: Python does not print an [int] of more
    decimal digits, and [json.dumps] raises [ValueError] on it. *)
Definition int_max_str_digits : Z := 4300.

(** [json.dumps(obj, separators=(",", ":"))] on the requests of the module:
    an object whose members are integers, plain strings (printable ASCII
    without quotes or backslashes), booleans, [None] or one more level of
    such an object. *)
Definition dumps_scalar (v : value) : string + exn :=
  match v with
  | VInt n =>
      if (Z.abs n <? 10 ^ int_max_str_digits)%Z then inl (pretty n)
      else inr (OtherError "ValueError")
  | VStr s => inl (quoted s)
  | VBool true => inl "true"
  | VBool false => inl "false"
  | _ => inl "null"
  end.

Fixpoint dumps_items (f : value -> string + exn) (kvs : list (string * value))
    : list string + exn :=
  match kvs with
  | [] => inl []
  | kv :: kvs' =>
      match f kv.2 with
      | inr e => inr e
      | inl text =>
          match dumps_items f kvs' with
          | inr e => inr e
          | inl texts => inl ((quoted kv.1 ++ ":" ++ text)%string :: texts)
          end
      end
  end.

Definition dumps_members (f : value -> string + exn) (m : gmap string value)
    : string + exn :=
  match dumps_items f (map_to_list m) with
  | inr e => inr e
  | inl texts => inl ("{" ++ String.concat "," texts ++ "}")%string
  end.

Definition dumps (v : value) : string + exn :=
  match v with
  | VDict m =>
      dumps_members
        (fun v' => match v' with
                   | VDict m' => dumps_members dumps_scalar m'
                   | _ => dumps_scalar v'
                   end) m
  | _ => dumps_scalar v
  end.

End Runtime.

(** ** Sample clients and histories *)

Module Demo.

(** Sample values for the two constants of [.const]. *)
Definition min_backoff : Q := 1.

Definition max_backoff : Q := 30.

Definition step := step Runtime.int Runtime.float Runtime.loads Runtime.decode
                        min_backoff max_backoff.

Definition run := run Runtime.int Runtime.float Runtime.loads Runtime.decode
                      min_backoff max_backoff.

Definition world := client_world Runtime.int Runtime.float Runtime.loads
                      Runtime.decode min_backoff max_backoff.

Definition wait_first_connect :=
  wait_first_connect Runtime.int Runtime.float Runtime.loads Runtime.decode
    min_backoff max_backoff.

Definition heartbeat : frame := Text (Runtime.object_text Runtime.heartbeat_frame).

Definition status : frame := Text (Runtime.object_text Runtime.status_frame).

Definition progress : frame := Text (Runtime.object_text Runtime.progress_frame).

(** A started client whose loop is waiting for the connection. *)
Definition started : client := (run [OpStart; EvTaskStart] new_client).1.

(** A client connected at time 10. *)
Definition connected : client :=
  (run [EvConnected (Connection 1) 10] started).1.

(** Scenario 7 of the spec: a heartbeat, a status frame, a disconnect, a
    reconnect and a progress frame. *)
Definition scenario : list event :=
  [ OpStart; EvTaskStart;
    EvConnected (Connection 1) 10;
    EvFrame heartbeat 11 Returned Returned;
    EvFrame status 12 Returned Returned;
    EvClosed false 0.1; EvSleepDone;
    EvConnected (Connection 2) 20;
    EvFrame progress 21 Returned Returned ].

Definition scenario_snapshot : gmap string value :=
  <["temp" := VFloat 23.5%float]> (<["state" := VStr "printing"]>
  (<["progress" := VInt 42]> ∅)).

End Demo.

(** The values of the spec's examples, in one payload. *)
Definition sample_payload : gmap string value :=
  <["temp" := VStr "23.5"]> (<["speed" := VStr "120"]>
  (<["state" := VStr "idle"]> (<["fan" := VBool true]> ∅))).

(** The client of the scenario after its link dropped and a stop/start. *)
Definition restarted : client :=
  (Demo.run [EvClosed true 0.2; OpStopRequest; OpStopJoin true; OpStart]
     (Demo.wait_first_connect 5 [EvConnected (Connection 1) 10]
        Demo.started).2).1.

(** Four failed attempts in a row, with their jitters. *)
Definition four_failures : list event :=
  [ EvConnectFailed 0.2; EvSleepDone; EvConnectFailed 0; EvSleepDone;
    EvConnectFailed 0.4; EvSleepDone; EvConnectFailed 0.3; EvSleepDone;
    EvConnectFailed 0.1 ].

(** A request sent while the link is down; the link comes back during the
    wait and the second write fails. *)
Definition fan_on : gmap string value := <["fan" := VInt 1]> ∅.

(** The text of that request. *)
Definition fan_on_text : string :=
  Eval vm_compute in
    match Runtime.dumps (set_request fan_on) with
    | inl text => text
    | inr _ => EmptyString
    end.

(** A request whose value has 4301 digits. *)
Definition too_long : gmap string value := <["n" := VInt (10 ^ 4300)]> ∅.

Definition link_down : sched :=
  Sched Demo.started [Some (OtherError "ConnectionClosed")]
        [[EvConnected (Connection 1) 10]].

(** A client backing off with the stop flag set. *)
Definition stopping : client :=
  (Demo.run [EvConnectFailed 0.2; OpStopRequest] Demo.started).1.

(** A scripted world in which the link comes back during the wait. *)
Definition link_returns : sched :=
  Sched Demo.started [] [[EvConnected (Connection 1) 10]].

(** Seven iterations of the poller on a live session, with two failed
    sends, and an eighth that finds the session gone. *)
Definition sample_ticks : list poll_tick :=
  [ PollTick 100 (Some (Connection 1)) Returned Raised true;
    PollTick 101 (Some (Connection 1)) Returned Returned true;
    PollTick 102 (Some (Connection 1)) Returned Returned true;
    PollTick 103 (Some (Connection 1)) Returned Returned true;
    PollTick 104 (Some (Connection 1)) Returned Returned true;
    PollTick 105 (Some (Connection 1)) Raised Returned true;
    PollTick 106 (Some (Connection 1)) Returned Returned true;
    PollTick 106.2 None Returned Returned true;
    PollTick 120 (Some (Connection 1)) Returned Returned true ].

(** A heartbeat task started 12 s after the last frame, with a grace period
    of 10 s: two pongs, then a ping that fails. *)
Definition sample_grace : PrimFloat.float := 10%float.

Definition sample_start : hb_start := HbStart true 112%float 100%float Raised.

(** A heartbeat task started when the clock reads 10.3, the last frame
    received at 0.3: the difference, a little more than 10 in exact
    arithmetic, is rounded to 10.0. *)
Definition rounded_start : hb_start := HbStart true 10.3%float 0.3%float Returned.

Definition sample_rounds : list hb_round :=
  [ HbRound true (Some (Connection 1)) Returned;
    HbRound true (Some (Connection 1)) Returned;
    HbRound true (Some (Connection 1)) Raised;
    HbRound true (Some (Connection 1)) Returned ].

(** * Part III: properties *)

(** ** The frame codec *)

Section CodecFacts.

Variable py_int : string -> option Z.
Variable py_float : string -> option PrimFloat.float.

Lemma _coerce_numbers_fmap (d : gmap string value) :
  _coerce_numbers py_int py_float d = coerce_value py_int py_float <$> d.
Proof.
  unfold _coerce_numbers.
  apply (map_fold_weak_ind (fun out m => out = coerce_value py_int py_float <$> m)).
  - by rewrite fmap_empty.
  - intros k v m out _ ->. by rewrite fmap_insert.
Qed.

Lemma coerce_value_not_str (v : value) :
  is_str v = false -> coerce_value py_int py_float v = v.
Proof. by destruct v. Qed.

Lemma lookup_coerce_numbers (d : gmap string value) (k : string) :
  _coerce_numbers py_int py_float d !! k = coerce_value py_int py_float <$> d !! k.
Proof. by rewrite _coerce_numbers_fmap, lookup_fmap. Qed.

(** C2. In the mapping returned by [_coerce_numbers], a key holds: the float
    read by [float] when the value was a string with a decimal point that
    [float] accepts; the integer read by [int] when it was a string without
    a decimal point that [int] accepts; the string itself when the
    conversion raised; the value itself when it was not a string; and the
    mapping has no other keys. *)
Theorem coerce_numbers_spec (d : gmap string value) :
  (forall k s f, d !! k = Some (VStr s) -> contains_dot s = true ->
     py_float s = Some f ->
     _coerce_numbers py_int py_float d !! k = Some (VFloat f)) /\
  (forall k s n, d !! k = Some (VStr s) -> contains_dot s = false ->
     py_int s = Some n ->
     _coerce_numbers py_int py_float d !! k = Some (VInt n)) /\
  (forall k s, d !! k = Some (VStr s) ->
     (if contains_dot s then py_float s = None else py_int s = None) ->
     _coerce_numbers py_int py_float d !! k = Some (VStr s)) /\
  (forall k v, d !! k = Some v -> is_str v = false ->
     _coerce_numbers py_int py_float d !! k = Some v) /\
  (forall k, d !! k = None ->
     _coerce_numbers py_int py_float d !! k = None).
Proof.
  repeat split; intros k.
  - intros s f Hk Hdot Hf. rewrite lookup_coerce_numbers, Hk; simpl.
    by rewrite Hdot, Hf.
  - intros s n Hk Hdot Hn. rewrite lookup_coerce_numbers, Hk; simpl.
    by rewrite Hdot, Hn.
  - intros s Hk Hfail. rewrite lookup_coerce_numbers, Hk; simpl.
    destruct (contains_dot s); by rewrite Hfail.
  - intros v Hk Hv. rewrite lookup_coerce_numbers, Hk; simpl.
    by rewrite coerce_value_not_str.
  - intros Hk. by rewrite lookup_coerce_numbers, Hk.
Qed.

Lemma coerce_value_idempotent (v : value) :
  coerce_value py_int py_float (coerce_value py_int py_float v) =
    coerce_value py_int py_float v.
Proof.
  destruct v as [| | | |s| |]; try done. simpl.
  destruct (contains_dot s) eqn:Hdot.
  - destruct (py_float s) eqn:Hf; [done|]. simpl. by rewrite Hdot, Hf.
  - destruct (py_int s) eqn:Hn; [done|]. simpl. by rewrite Hdot, Hn.
Qed.

(** X1. [_coerce_numbers] keeps the key set of its argument (nothing is
    dropped, nothing is added, the empty mapping included), and applying it
    to its own result changes nothing: what it left as a string is a string
    the builtins reject. *)
Theorem coerce_numbers_idempotent (d : gmap string value) :
  dom (_coerce_numbers py_int py_float d) = dom d /\
  _coerce_numbers py_int py_float (_coerce_numbers py_int py_float d) =
    _coerce_numbers py_int py_float d.
Proof.
  rewrite !_coerce_numbers_fmap. split.
  - apply dom_fmap_L.
  - rewrite <- map_fmap_compose. apply map_fmap_ext.
    intros k v _. apply coerce_value_idempotent.
Qed.

(** Coercion distributes over [dict.update]. *)
Lemma coerce_numbers_update (d m : gmap string value) :
  _coerce_numbers py_int py_float (update d m) =
    update (_coerce_numbers py_int py_float d) (_coerce_numbers py_int py_float m).
Proof.
  rewrite !_coerce_numbers_fmap. unfold update. apply map_fmap_union.
Qed.

End CodecFacts.

Lemma coerce_numbers_spec_witness :
  let out := _coerce_numbers Runtime.int Runtime.float sample_payload in
  out !! "temp" = Some (VFloat 23.5%float) /\
  out !! "speed" = Some (VInt 120) /\
  out !! "state" = Some (VStr "idle") /\
  out !! "fan" = Some (VBool true) /\
  out !! "bed" = None.
Proof.
  destruct (coerce_numbers_spec Runtime.int Runtime.float sample_payload)
    as (Hfloat & Hint & Hfail & Hother & Hnone).
  intros out. split; [|split; [|split; [|split]]].
  - by apply (Hfloat "temp" "23.5").
  - by apply (Hint "speed" "120").
  - by apply (Hfail "state" "idle").
  - by apply (Hother "fan").
  - by apply (Hnone "bed").
Defined.

(** ** The frame decoder *)

Section DecoderFacts.

Import Utf8.
Local Open Scope Z_scope.

Lemma code_range b : 0 <= code b < 256.
Proof. unfold code. pose proof (Byte.to_N_bounded b). lia. Qed.

Lemma code_byte_of z : 0 <= z < 256 -> code (byte_of z) = z.
Proof.
  intros Hz. unfold code, byte_of.
  destruct (Byte.of_N (Z.to_N z)) as [b|] eqn:Hb; simpl.
  - apply Byte.to_of_N in Hb. lia.
  - apply Byte.of_N_None_iff in Hb. lia.
Qed.

Lemma byte_of_code b : byte_of (code b) = b.
Proof. unfold code, byte_of. by rewrite N2Z.id, Byte.of_to_N. Qed.

Lemma decode_cons (b0 : Byte.byte) (rest : list Byte.byte) :
  decode (b0 :: rest) =
  let ch := code b0 in
  if ch <? 0x80 then ch :: decode rest
  else if ch <? 0xC2 then decode rest
  else if ch <? 0xE0 then
    match rest with
    | [] => []
    | b1 :: rest1 =>
        let ch2 := code b1 in
        if negb (is_continuation ch2) then decode rest
        else Z.shiftl ch 6 + ch2 - (Z.shiftl 0xC0 6 + 0x80) :: decode rest1
    end
  else if ch <? 0xF0 then
    match rest with
    | [] => []
    | b1 :: rest1 =>
        let ch2 := code b1 in
        if negb (is_continuation ch2)
           || (if ch2 <? 0xA0 then ch =? 0xE0 else ch =? 0xED)
        then decode rest
        else
          match rest1 with
          | [] => []
          | b2 :: rest2 =>
              let ch3 := code b2 in
              if negb (is_continuation ch3) then decode rest1
              else Z.shiftl ch 12 + Z.shiftl ch2 6 + ch3
                   - (Z.shiftl 0xE0 12 + Z.shiftl 0x80 6 + 0x80)
                   :: decode rest2
          end
    end
  else if ch <? 0xF5 then
    match rest with
    | [] => []
    | b1 :: rest1 =>
        let ch2 := code b1 in
        if negb (is_continuation ch2)
           || (if ch2 <? 0x90 then ch =? 0xF0 else ch =? 0xF4)
        then decode rest
        else
          match rest1 with
          | [] => []
          | b2 :: rest2 =>
              let ch3 := code b2 in
              if negb (is_continuation ch3) then decode rest1
              else
                match rest2 with
                | [] => []
                | b3 :: rest3 =>
                    let ch4 := code b3 in
                    if negb (is_continuation ch4) then decode rest2
                    else Z.shiftl ch 18 + Z.shiftl ch2 12 + Z.shiftl ch3 6 + ch4
                         - (Z.shiftl 0xF0 18 + Z.shiftl 0x80 12
                            + Z.shiftl 0x80 6 + 0x80)
                         :: decode rest3
                end
          end
    end
  else decode rest.
Proof. reflexivity. Qed.

Lemma shiftl_6 x : Z.shiftl x 6 = x * 64.
Proof. by rewrite Z.shiftl_mul_pow2. Qed.

Lemma shiftl_12 x : Z.shiftl x 12 = x * 4096.
Proof. by rewrite Z.shiftl_mul_pow2. Qed.

Lemma shiftl_18 x : Z.shiftl x 18 = x * 262144.
Proof. by rewrite Z.shiftl_mul_pow2. Qed.

(** Decide the comparisons of the goal from the hypotheses. *)
Ltac compare_codes :=
  repeat match goal with
         | |- context [Z.ltb ?a ?b] => destruct (Z.ltb_spec a b); try lia
         | |- context [Z.leb ?a ?b] => destruct (Z.leb_spec a b); try lia
         | |- context [Z.eqb ?a ?b] => destruct (Z.eqb_spec a b); try lia
         end.

Ltac quotients cp :=
  pose proof (Z.div_mod cp 0x40 ltac:(lia));
  pose proof (Z.mod_pos_bound cp 0x40 ltac:(lia));
  pose proof (Z.div_mod (cp / 0x40) 0x40 ltac:(lia));
  pose proof (Z.mod_pos_bound (cp / 0x40) 0x40 ltac:(lia));
  pose proof (Z.div_mod (cp / 0x1000) 0x40 ltac:(lia));
  pose proof (Z.mod_pos_bound (cp / 0x1000) 0x40 ltac:(lia));
  pose proof (Z.div_div cp 0x40 0x40 ltac:(lia) ltac:(lia));
  pose proof (Z.div_div cp 0x1000 0x40 ltac:(lia) ltac:(lia));
  change (0x40 * 0x40) with 0x1000 in *;
  change (0x1000 * 0x40) with 0x40000 in *.

Lemma decode_encode_point cp rest :
  is_scalar cp = true -> decode (encode_point cp ++ rest) = cp :: decode rest.
Proof.
  unfold is_scalar, encode_point. intros Hcp.
  apply andb_true_iff in Hcp as [[H0 H1]%andb_true_iff Hs].
  apply Z.leb_le in H0. apply Z.ltb_lt in H1.
  assert (cp < 0xD800 \/ 0xE000 <= cp) as Hsur.
  { destruct (Z.leb_spec 0xD800 cp), (Z.ltb_spec cp 0xE000); simpl in Hs; try done; lia. }
  clear Hs. quotients cp.
  set (q1 := cp / 0x40) in *. set (r1 := cp mod 0x40) in *.
  set (q2 := cp / 0x1000) in *. set (r2 := q1 mod 0x40) in *.
  set (q3 := cp / 0x40000) in *. set (r3 := q2 mod 0x40) in *.
  destruct (Z.ltb_spec cp 0x80); [|destruct (Z.ltb_spec cp 0x800);
    [|destruct (Z.ltb_spec cp 0x10000)]].
  all: cbn [app]; rewrite decode_cons; cbv beta iota zeta;
       rewrite !code_byte_of by lia; unfold is_continuation;
       compare_codes; cbn [negb orb andb]; f_equal;
       rewrite ?shiftl_6, ?shiftl_12, ?shiftl_18; lia.
Qed.


Lemma encode_cons cp s : encode (cp :: s) = encode_point cp ++ encode s.
Proof. reflexivity. Qed.

Lemma encode_app s t : encode (s ++ t) = encode s ++ encode t.
Proof. unfold encode. apply bind_app. Qed.

Lemma decode_encode s rest :
  well_formed s ->
  decode (encode s ++ rest) = s ++ decode rest.
Proof.
  unfold well_formed. induction 1 as [|cp s Hcp Hs IH]; [done|].
  rewrite encode_cons, <- app_assoc, decode_encode_point by done.
  by rewrite IH.
Qed.

Lemma decode_undecodable b rest :
  undecodable b = true -> decode (b :: rest) = decode rest.
Proof.
  unfold undecodable. intros Hb. rewrite decode_cons. cbv zeta.
  pose proof (code_range b).
  destruct (Z.leb_spec 0x80 (code b)), (Z.ltb_spec (code b) 0xC2),
    (Z.leb_spec 0xF5 (code b)); simpl in Hb; try done; try lia.
  all: compare_codes; done.
Qed.

Lemma continuation_range x :
  is_continuation x = true <-> 0x80 <= x <= 0xBF.
Proof. unfold is_continuation. rewrite andb_true_iff, Z.leb_le, Z.leb_le. done. Qed.

Ltac reencode :=
  unfold encode_point, is_scalar;
  match goal with |- context [?cp <? 0x80] => quotients cp;
    set (q1 := cp / 0x40) in *; set (r1 := cp mod 0x40) in *;
    set (q2 := cp / 0x1000) in *; set (r2 := q1 mod 0x40) in *;
    set (q3 := cp / 0x40000) in *; set (r3 := q2 mod 0x40) in *
  end;
  compare_codes; cbn [negb andb orb]; (split; [|done]).

Lemma encode_decoded_1 b0 :
  code b0 < 0x80 ->
  encode_point (code b0) = [b0] /\ is_scalar (code b0) = true.
Proof.
  intros H0. pose proof (code_range b0).
  unfold encode_point, is_scalar. compare_codes. by rewrite byte_of_code.
Qed.

Lemma encode_decoded_2 b0 b1 :
  0xC2 <= code b0 < 0xE0 -> is_continuation (code b1) = true ->
  let cp := Z.shiftl (code b0) 6 + code b1 - (Z.shiftl 0xC0 6 + 0x80) in
  encode_point cp = [b0; b1] /\ is_scalar cp = true.
Proof.
  intros H0 H1%continuation_range cp. subst cp.
  rewrite !shiftl_6. reencode.
  transitivity [byte_of (code b0); byte_of (code b1)];
    [repeat f_equal; lia|by rewrite !byte_of_code].
Qed.

Lemma encode_decoded_3 b0 b1 b2 :
  0xE0 <= code b0 < 0xF0 ->
  is_continuation (code b1) = true ->
  (if code b1 <? 0xA0 then code b0 =? 0xE0 else code b0 =? 0xED) = false ->
  is_continuation (code b2) = true ->
  let cp := Z.shiftl (code b0) 12 + Z.shiftl (code b1) 6 + code b2
            - (Z.shiftl 0xE0 12 + Z.shiftl 0x80 6 + 0x80) in
  encode_point cp = [b0; b1; b2] /\ is_scalar cp = true.
Proof.
  intros H0 H1%continuation_range Hx H2%continuation_range cp. subst cp.
  assert ((code b0 = 0xE0 -> 0xA0 <= code b1) /\
          (code b0 = 0xED -> code b1 < 0xA0)) as [Hlo Hhi].
  { destruct (Z.ltb_spec (code b1) 0xA0), (Z.eqb_spec (code b0) 0xE0),
      (Z.eqb_spec (code b0) 0xED); try done; lia. }
  clear Hx. rewrite !shiftl_6, !shiftl_12. reencode.
  all: transitivity [byte_of (code b0); byte_of (code b1); byte_of (code b2)];
    [repeat f_equal; lia|by rewrite !byte_of_code].
Qed.

Lemma encode_decoded_4 b0 b1 b2 b3 :
  0xF0 <= code b0 < 0xF5 ->
  is_continuation (code b1) = true ->
  (if code b1 <? 0x90 then code b0 =? 0xF0 else code b0 =? 0xF4) = false ->
  is_continuation (code b2) = true ->
  is_continuation (code b3) = true ->
  let cp := Z.shiftl (code b0) 18 + Z.shiftl (code b1) 12
            + Z.shiftl (code b2) 6 + code b3
            - (Z.shiftl 0xF0 18 + Z.shiftl 0x80 12 + Z.shiftl 0x80 6 + 0x80) in
  encode_point cp = [b0; b1; b2; b3] /\ is_scalar cp = true.
Proof.
  intros H0 H1%continuation_range Hx H2%continuation_range
    H3%continuation_range cp. subst cp.
  assert ((code b0 = 0xF0 -> 0x90 <= code b1) /\
          (code b0 = 0xF4 -> code b1 < 0x90)) as [Hlo Hhi].
  { destruct (Z.ltb_spec (code b1) 0x90), (Z.eqb_spec (code b0) 0xF0),
      (Z.eqb_spec (code b0) 0xF4); try done; lia. }
  clear Hx. rewrite !shiftl_6, !shiftl_12, !shiftl_18. reencode.
  all: transitivity [byte_of (code b0); byte_of (code b1); byte_of (code b2);
                     byte_of (code b3)];
    [repeat f_equal; lia|by rewrite !byte_of_code].
Qed.


(** One round of the decoder: it consumes a non-empty prefix [pre] of the
    input, which is either a well-formed sequence that it decodes, or bytes
    that it drops. *)
Lemma decode_round b0 rest :
  exists pre rest' pts,
    b0 :: rest = pre ++ rest' /\ pre <> [] /\
    decode (b0 :: rest) = pts ++ decode rest' /\
    (pts = [] \/ exists cp, pts = [cp] /\ encode_point cp = pre /\
                            is_scalar cp = true).
Proof.
  rewrite decode_cons. cbv zeta. pose proof (code_range b0) as Hb0.
  assert (forall tail : list Byte.byte, exists pre rest' pts,
            b0 :: tail = pre ++ rest' /\ pre <> [] /\
            @nil Z = pts ++ decode rest' /\
            (pts = [] \/ exists cp, pts = [cp] /\ encode_point cp = pre /\
                                    is_scalar cp = true)) as Hend.
  { intros tail. exists (b0 :: tail), [], []. rewrite app_nil_r. eauto. }
  assert (exists pre rest' pts,
            b0 :: rest = pre ++ rest' /\ pre <> [] /\
            decode rest = pts ++ decode rest' /\
            (pts = [] \/ exists cp, pts = [cp] /\ encode_point cp = pre /\
                                    is_scalar cp = true)) as Hskip1.
  { exists [b0], rest, []. eauto. }
  destruct (Z.ltb_spec (code b0) 0x80).
  { destruct (encode_decoded_1 b0) as [He Hs]; [done|].
    exists [b0], rest, [code b0]. repeat split; try done. right. eauto. }
  destruct (Z.ltb_spec (code b0) 0xC2); [done|].
  destruct (Z.ltb_spec (code b0) 0xE0).
  { destruct rest as [|b1 rest1]; [by apply Hend|].
    destruct (is_continuation (code b1)) eqn:Hc1; [|done]. simpl negb. cbv iota.
    destruct (encode_decoded_2 b0 b1) as [He Hs]; [lia|done|].
    eexists [b0; b1], rest1, [_]. repeat split; try done. right. eauto. }
  destruct (Z.ltb_spec (code b0) 0xF0).
  { destruct rest as [|b1 rest1]; [by apply Hend|].
    destruct (is_continuation (code b1)) eqn:Hc1; [|done]. simpl negb. simpl orb.
    destruct (if code b1 <? 0xA0 then code b0 =? 0xE0 else code b0 =? 0xED)
      eqn:Hx; [done|].
    destruct rest1 as [|b2 rest2]; [by apply Hend|].
    destruct (is_continuation (code b2)) eqn:Hc2; simpl negb; cbv iota.
    - destruct (encode_decoded_3 b0 b1 b2) as [He Hs]; [lia|done..|].
      eexists [b0; b1; b2], rest2, [_]. repeat split; try done. right. eauto.
    - exists [b0; b1], (b2 :: rest2), []. eauto. }
  destruct (Z.ltb_spec (code b0) 0xF5); [|done].
  destruct rest as [|b1 rest1]; [by apply Hend|].
  destruct (is_continuation (code b1)) eqn:Hc1; [|done]. simpl negb. simpl orb.
  destruct (if code b1 <? 0x90 then code b0 =? 0xF0 else code b0 =? 0xF4)
    eqn:Hx; [done|].
  destruct rest1 as [|b2 rest2]; [by apply Hend|].
  destruct (is_continuation (code b2)) eqn:Hc2; simpl negb; cbv iota.
  2: { exists [b0; b1], (b2 :: rest2), []. eauto. }
  destruct rest2 as [|b3 rest3]; [by apply Hend|].
  destruct (is_continuation (code b3)) eqn:Hc3; simpl negb; cbv iota.
  - destruct (encode_decoded_4 b0 b1 b2 b3) as [He Hs]; [lia|done..|].
    eexists [b0; b1; b2; b3], rest3, [_]. repeat split; try done. right. eauto.
  - exists [b0; b1; b2], (b3 :: rest3), []. eauto.
Qed.

(** Whatever the bytes, the decoder yields Unicode scalar values, and their
    encoding is what remains of the input once the undecodable bytes are
    taken out: nothing is added, altered or reordered. *)
Lemma decode_drops_only bs :
  well_formed (decode bs) /\
  sublist (encode (decode bs)) bs.
Proof.
  unfold well_formed. remember (length bs) as n eqn:Hn. revert bs Hn.
  induction n as [n IH] using lt_wf_ind. intros [|b0 rest] Hn.
  { split; [constructor|done]. }
  destruct (decode_round b0 rest) as (pre & rest' & pts & Hbs & Hpre & Hdec & Hpts).
  destruct (IH (length rest')) with (bs := rest') as [IHs IHe]; [|done|].
  { subst n. rewrite Hbs, length_app. destruct pre; [done|]. simpl. lia. }
  rewrite Hdec, Hbs, encode_app. split.
  - apply Forall_app. split; [|done].
    destruct Hpts as [->|(cp & -> & _ & Hs)]; by repeat constructor.
  - apply sublist_app; [|done].
    destruct Hpts as [->|(cp & -> & <- & _)].
    + apply sublist_nil_l.
    + unfold encode. simpl. by rewrite app_nil_r.
Qed.

End DecoderFacts.

(** ** The state aggregator *)

Lemma lookup_update (d m : gmap string value) (k : string) :
  update d m !! k = match m !! k with Some v => Some v | None => d !! k end.
Proof.
  unfold update. destruct (m !! k) as [v|] eqn:Hm.
  - by apply lookup_union_Some_l.
  - by apply lookup_union_r.
Qed.

Lemma foldl_update_lookup (ups : list (gmap string value)) (d : gmap string value)
    (k : string) :
  foldl update d ups !! k =
    match last_writer k ups with Some v => Some v | None => d !! k end.
Proof.
  induction ups as [|u ups IH] using rev_ind; [done|].
  rewrite foldl_app. simpl. rewrite lookup_update.
  unfold last_writer in *. rewrite reverse_app. simpl.
  destruct (u !! k) as [v|] eqn:Hu.
  - rewrite bool_decide_eq_true_2 by eauto. by rewrite Hu.
  - rewrite bool_decide_eq_false_2 by (by intros [? ?]).
    apply IH.
Qed.

Lemma snapshots_last (ups : list (gmap string value)) (d : gmap string value) :
  last (snapshots d ups) = (fun _ => foldl update d ups) <$> last ups.
Proof.
  revert d. induction ups as [|u ups IH]; intros d; [done|].
  simpl snapshots. simpl foldl. destruct ups as [|u' ups]; [done|].
  specialize (IH (update d u)). simpl in *. exact IH.
Qed.

Section ClientFacts.

Variable py_int : string -> option Z.
Variable py_float : string -> option PrimFloat.float.
Variable json_loads : string -> option value.
Variable bytes_decode : list Byte.byte -> string.
Variable RETRY_MIN_BACKOFF RETRY_MAX_BACKOFF : Q.

Local Abbreviation coerce := (_coerce_numbers py_int py_float).
Local Abbreviation handle := (handle_frame py_int py_float json_loads bytes_decode).
Local Abbreviation step := (step py_int py_float json_loads bytes_decode
                          RETRY_MIN_BACKOFF RETRY_MAX_BACKOFF).
Local Abbreviation run := (run py_int py_float json_loads bytes_decode
                         RETRY_MIN_BACKOFF RETRY_MAX_BACKOFF).
Local Abbreviation frame_text := (frame_text bytes_decode).
Local Abbreviation state_update := (state_update json_loads bytes_decode).
Local Abbreviation delivered_update := (delivered_update json_loads bytes_decode).
Local Abbreviation delivered_updates :=
  (delivered_updates py_int py_float json_loads bytes_decode
     RETRY_MIN_BACKOFF RETRY_MAX_BACKOFF).
Local Abbreviation backoff_bounded := (backoff_bounded RETRY_MAX_BACKOFF).
Local Abbreviation wait_for_flag :=
  (wait_for_flag py_int py_float json_loads bytes_decode
     RETRY_MIN_BACKOFF RETRY_MAX_BACKOFF).
Local Abbreviation wait_first_connect :=
  (wait_first_connect py_int py_float json_loads bytes_decode
     RETRY_MIN_BACKOFF RETRY_MAX_BACKOFF).

Lemma handle_frame_merge raw now send_res cb_res c :
  match state_update raw with
  | Some d =>
      _state (handle raw now send_res cb_res c).1.1 = update (_state c) (coerce d) /\
      callbacks (handle raw now send_res cb_res c).1.2 =
        [update (_state c) (coerce d)]
  | None =>
      _state (handle raw now send_res cb_res c).1.1 = _state c /\
      callbacks (handle raw now send_res cb_res c).1.2 = []
  end.
Proof.
  unfold state_update, handle_frame, frame_text.
  destruct (String.eqb _ "ok"); [done|].
  destruct (json_loads _) as [[| | | | | |d]|]; try done.
  destruct (eq_str _ _); [done|].
  by destruct cb_res.
Qed.

Lemma step_merge e c :
  match delivered_update e c with
  | Some d =>
      _state (step e c).1 = update (_state c) (coerce d) /\
      callbacks (step e c).2 = [update (_state c) (coerce d)]
  | None =>
      _state (step e c).1 = _state c /\ callbacks (step e c).2 = []
  end.
Proof.
  unfold delivered_update, receiving.
  destruct e as [| |joined| |ws now|jitter|raw now send_res cb_res|error jitter| |];
    simpl.
  7: {
    pose proof (handle_frame_merge raw now send_res cb_res c) as H.
    destruct (_task c) as [[[] bk]|]; simpl; try done.
    destruct (handle raw now send_res cb_res c) as [[c' effs] cancelled].
    simpl in H.
    destruct (state_update raw) as [d|], cancelled; simpl;
      destruct H as [H1 H2]; split; try done;
      unfold callbacks in *; rewrite omap_app, H2; done. }
  all: destruct (_task c) as [[[] bk]|]; simpl; try done.
  all: try (by destruct joined).
  all: try (by destruct (_stop c)).
  all: try (by destruct error).
  all: unfold loop_head; by destruct (_stop c).
Qed.

Lemma run_cons e es c :
  run (e :: es) c = ((run es (step e c).1).1, (step e c).2 ++ (run es (step e c).1).2).
Proof.
  simpl. destruct (step e c) as [c' effs]. simpl.
  by destruct (run es c') as [c'' effs'].
Qed.

Lemma run_merge es c :
  _state (run es c).1 = foldl update (_state c) (coerce <$> delivered_updates es c) /\
  callbacks (run es c).2 = snapshots (_state c) (coerce <$> delivered_updates es c).
Proof.
  revert c. induction es as [|e es IH]; intros c; [done|].
  rewrite run_cons. simpl fst. simpl snd. simpl delivered_updates.
  destruct (IH (step e c).1) as [IHs IHc]. rewrite IHs.
  unfold callbacks in *. rewrite omap_app, IHc.
  pose proof (step_merge e c) as H. unfold callbacks in H.
  destruct (delivered_update e c) as [d|]; simpl; destruct H as [-> ->]; done.
Qed.

(** C1. Whatever the history of a client (frames of any kind, any number of
    connections, disconnects, stops and restarts), its merged state maps
    each key to the coerced value of the last delivered update mapping that
    contains it; the observer has been called once per update with the
    merge of the updates so far, so the last snapshot it received is the
    final merged state; and an event that delivers no update leaves the
    merged state as it is. *)
Theorem merged_state_last_writer_wins (es : list event) :
  let ups := coerce <$> delivered_updates es new_client in
  (forall k, _state (run es new_client).1 !! k = last_writer k ups) /\
  callbacks (run es new_client).2 = snapshots ∅ ups /\
  last (callbacks (run es new_client).2) =
    (fun _ => _state (run es new_client).1) <$> last ups /\
  (forall e c,
     _state (step e c).1 =
       match delivered_update e c with
       | Some d => update (_state c) (coerce d)
       | None => _state c
       end).
Proof.
  intros ups. destruct (run_merge es new_client) as [Hs Hc]. fold ups in Hs, Hc.
  split; [|split; [|split]].
  - intros k. rewrite Hs, foldl_update_lookup. simpl.
    destruct (last_writer k ups); [done|apply lookup_empty].
  - exact Hc.
  - rewrite Hc, Hs. apply snapshots_last.
  - intros e c. pose proof (step_merge e c) as H.
    destruct (delivered_update e c); by destruct H.
Qed.

(** ** The receive loop, frame by frame *)

Lemma receiving_task c :
  receiving c = true -> exists bk, _task c = Some (Loop Receiving bk).
Proof.
  unfold receiving. destruct (_task c) as [[[] bk]|]; try done. eauto.
Qed.

(** C5. A frame that parses to a mapping whose [ModeCode] is ["heart_beat"]
    makes the loop write the bare text [ok] to the socket exactly once (the
    only other thing it may do is log its exit when the task is cancelled
    during that write), leaves the merged state as it was and does not call
    the observer.  The parser is any function that, like [json.loads],
    rejects the text [ok]. *)
Theorem heartbeat_acknowledged raw now send_res cb_res c d :
  json_loads "ok" = None ->
  json_loads (frame_text raw) = Some (VDict d) ->
  d !! "ModeCode" = Some (VStr "heart_beat") ->
  receiving c = true ->
  (step (EvFrame raw now send_res cb_res) c).2 =
    WsSend "ok" ::
      match send_res with
      | Cancelled => [Log DEBUG "K1C WS loop exited"]
      | _ => []
      end /\
  outbound (step (EvFrame raw now send_res cb_res) c).2 = ["ok"] /\
  callbacks (step (EvFrame raw now send_res cb_res) c).2 = [] /\
  _state (step (EvFrame raw now send_res cb_res) c).1 = _state c.
Proof.
  intros Hok Hparse Hmode [bk Htask]%receiving_task.
  assert (String.eqb (frame_text raw) "ok" = false) as Hne.
  { destruct (String.eqb_spec (frame_text raw) "ok") as [Heq|]; [|done].
    rewrite Heq in Hparse. congruence. }
  simpl. rewrite Htask. simpl. unfold handle_frame.
  fold (frame_text raw). rewrite Hne, Hparse.
  unfold get. rewrite Hmode. simpl.
  by destruct send_res.
Qed.

(** C6. When the observer raises on a state-update frame, the loop has
    already merged the frame, logs the failure and stays in the receive
    loop: the client is exactly the one a returning observer leaves behind,
    so every later frame is processed the same way. *)
Theorem callback_failure_contained raw now send_res c d :
  state_update raw = Some d ->
  receiving c = true ->
  _state (step (EvFrame raw now send_res Raised) c).1 =
    update (_state c) (coerce d) /\
  (step (EvFrame raw now send_res Raised) c).2 =
    [OnMessage (update (_state c) (coerce d));
     Log ERROR "K1C on_message failed"] /\
  receiving (step (EvFrame raw now send_res Raised) c).1 = true /\
  (step (EvFrame raw now send_res Raised) c).1 =
    (step (EvFrame raw now send_res Returned) c).1.
Proof.
  intros Hupd [bk Htask]%receiving_task.
  unfold state_update in Hupd.
  simpl. rewrite Htask. simpl. unfold handle_frame.
  fold (frame_text raw).
  destruct (String.eqb (frame_text raw) "ok"); [done|].
  destruct (json_loads (frame_text raw)) as [[| | | | | |d']|]; try done.
  destruct (eq_str (get d' "ModeCode") "heart_beat"); [done|].
  injection Hupd as ->. simpl.
  repeat split. unfold receiving. simpl. by rewrite Htask.
Qed.

(** ** Lifecycle flags and the receive timestamp *)

Ltac loop_cases c :=
  let bk := fresh "bk" in
  let Ht := fresh "Htask" in
  simpl; destruct (_task c) as [[[] bk]|] eqn:Ht; simpl;
  unfold loop_head; try destruct (_stop c) eqn:?; simpl;
  rewrite ?Ht; simpl.

Lemma handle_frame_flags raw now send_res cb_res c :
  let c' := (handle raw now send_res cb_res c).1.1 in
  _task c' = _task c /\ _ws c' = _ws c /\ _stop c' = _stop c /\
  _connected_once c' = _connected_once c /\ _last_rx c' = now /\
  _ws_ready c' = _ws_ready c.
Proof.
  unfold handle_frame.
  destruct (String.eqb _ "ok"); [done|].
  destruct (json_loads _) as [[| | | | | |d]|]; try done.
  by destruct (eq_str _ _).
Qed.

Lemma step_frame_flags raw now send_res cb_res c :
  receiving c = true ->
  let c' := (step (EvFrame raw now send_res cb_res) c).1 in
  _connected_once c' = _connected_once c /\ _last_rx c' = now /\
  (receiving c' = true /\ _ws_ready c' = _ws_ready c \/
   receiving c' = false /\ _ws_ready c' = false).
Proof.
  intros [bk Htask]%receiving_task. simpl. rewrite Htask. simpl.
  pose proof (handle_frame_flags raw now send_res cb_res c) as H.
  destruct (handle raw now send_res cb_res c) as [[c1 effs] []]; simpl in *;
    destruct H as (Ht & _ & _ & Hc & Hl & Hr).
  - auto.
  - split; [done|]. split; [done|]. left. unfold receiving.
    by rewrite Ht, Htask.
Qed.

Lemma step_connected_once e c :
  _connected_once c = true -> _connected_once (step e c).1 = true.
Proof.
  intros Hc.
  destruct e as [| |joined| |ws now|jitter|raw now send_res cb_res|error jitter| |].
  7: { destruct (receiving c) eqn:Hrecv.
       - by destruct (step_frame_flags raw now send_res cb_res c Hrecv) as [-> _].
       - unfold receiving in Hrecv. by loop_cases c. }
  all: loop_cases c; try done.
  all: by destruct joined.
Qed.

Lemma run_connected_once es c :
  _connected_once c = true -> _connected_once (run es c).1 = true.
Proof.
  revert c. induction es as [|e es IH]; intros c Hc; [done|].
  rewrite run_cons. simpl. apply IH. by apply step_connected_once.
Qed.

Lemma positive_timeout (timeout : Q) :
  (0 < timeout)%Q -> Qle_bool timeout 0 = false.
Proof.
  intros Hpos. destruct (Qle_bool timeout 0) eqn:Hle; [|done].
  apply Qle_bool_iff in Hle. lra.
Qed.

Lemma wait_for_flag_set flag timeout window c :
  (0 < timeout)%Q -> flag c = true ->
  wait_for_flag flag timeout window c = (true, c).
Proof.
  intros Hpos H. unfold wait_for_flag. rewrite positive_timeout by done.
  destruct window; simpl; by rewrite H.
Qed.

Lemma wait_until_true flag window c :
  (wait_until py_int py_float json_loads bytes_decode
     RETRY_MIN_BACKOFF RETRY_MAX_BACKOFF flag window c).1 = true ->
  flag (wait_until py_int py_float json_loads bytes_decode
     RETRY_MIN_BACKOFF RETRY_MAX_BACKOFF flag window c).2 = true.
Proof.
  revert c. induction window as [|e window IH]; intros c; simpl.
  - by destruct (flag c) eqn:Hf.
  - destruct (flag c) eqn:Hf; [done|]. apply IH.
Qed.

Lemma wait_for_flag_true flag timeout window c :
  (wait_for_flag flag timeout window c).1 = true ->
  flag (wait_for_flag flag timeout window c).2 = true.
Proof.
  unfold wait_for_flag. destruct (Qle_bool timeout 0); [done|].
  apply wait_until_true.
Qed.

Lemma step_ready e c :
  _ws_ready c = receiving c ->
  _ws_ready (step e c).1 = receiving (step e c).1.
Proof.
  intros Hr.
  destruct e as [| |joined| |ws now|jitter|raw now send_res cb_res|error jitter| |].
  7: { destruct (receiving c) eqn:Hrecv.
       - destruct (step_frame_flags raw now send_res cb_res c Hrecv)
           as (_ & _ & [[H1 H2]|[H1 H2]]); rewrite H1, H2; [|done]. exact Hr.
       - unfold receiving in *. by loop_cases c. }
  all: unfold receiving in *; loop_cases c; try done.
  all: by destruct joined; simpl; rewrite ?Htask.
Qed.

Lemma run_ready es c :
  _ws_ready c = receiving c ->
  _ws_ready (run es c).1 = receiving (run es c).1.
Proof.
  revert c. induction es as [|e es IH]; intros c Hc; [done|].
  rewrite run_cons. simpl. apply IH. by apply step_ready.
Qed.

Lemma step_never_connected e c :
  never_connected c -> never_connected (step e c).1.
Proof.
  unfold never_connected. intros Hinv Hc'.
  destruct (_connected_once c) eqn:Hc.
  { by rewrite (step_connected_once e c Hc) in Hc'. }
  destruct Hinv as [Hrx Hrecv]; [done|].
  unfold receiving in *. revert Hc'.
  destruct e as [| |joined| |ws now|jitter|raw now send_res cb_res|error jitter| |].
  all: loop_cases c; try done.
  all: by destruct joined; simpl; rewrite ?Htask.
Qed.

Lemma run_never_connected es c :
  never_connected c -> never_connected (run es c).1.
Proof.
  revert c. induction es as [|e es IH]; intros c Hc; [done|].
  rewrite run_cons. simpl. apply IH. by apply step_never_connected.
Qed.

Lemma step_last_rx_other e c :
  reads_clock e = false -> _last_rx (step e c).1 = _last_rx c.
Proof.
  destruct e as [| |joined| |ws now|jitter|raw now send_res cb_res|error jitter| |];
    try done; intros _.
  all: loop_cases c; try done.
  all: by destruct joined.
Qed.

Lemma step_no_connection e c :
  no_connection e -> _connected_once c = false ->
  _connected_once (step e c).1 = false.
Proof.
  intros He Hc.
  destruct e as [| |joined| |ws now|jitter|raw now send_res cb_res|error jitter| |].
  7: { destruct (receiving c) eqn:Hrecv.
       - by destruct (step_frame_flags raw now send_res cb_res c Hrecv) as [-> _].
       - unfold receiving in Hrecv. by loop_cases c. }
  all: loop_cases c; try done.
  all: by destruct joined.
Qed.

Lemma run_no_connection es c :
  Forall no_connection es -> _connected_once c = false ->
  _connected_once (run es c).1 = false.
Proof.
  revert c. induction es as [|e es IH]; intros c Hes Hc; [done|].
  inversion Hes; subst. rewrite run_cons. simpl. apply IH; [done|].
  by apply step_no_connection.
Qed.

(** C7. A successful connection sets both the "connected once" latch and
    the readiness flag.  No event clears the latch, so after a
    [wait_first_connect] that returned true every later call with a
    positive timeout returns true, and returns at once, whatever happened
    in between; a call with a timeout of zero or less returns false
    whatever the latch.  The readiness flag is, at every point of every
    history, set exactly while the loop is in its receive loop: each
    connect sets it and each way out of the connection clears it. *)
Theorem connected_once_latched :
  (forall c ws now, connecting c = true ->
     _connected_once (step (EvConnected ws now) c).1 = true /\
     _ws_ready (step (EvConnected ws now) c).1 = true) /\
  (forall e c, _connected_once c = true ->
     _connected_once (step e c).1 = true) /\
  (forall timeout window c es timeout' window',
     (wait_first_connect timeout window c).1 = true ->
     (0 < timeout')%Q ->
     wait_first_connect timeout' window'
       (run es (wait_first_connect timeout window c).2).1 =
     (true, (run es (wait_first_connect timeout window c).2).1)) /\
  (forall timeout window c,
     (timeout <= 0)%Q -> (wait_first_connect timeout window c).1 = false) /\
  (forall es,
     _ws_ready (run es new_client).1 = receiving (run es new_client).1).
Proof.
  split; [|split; [|split; [|split]]].
  - intros c ws now. unfold connecting. simpl.
    by destruct (_task c) as [[[] bk]|].
  - apply step_connected_once.
  - intros timeout window c es timeout' window' Hw Hpos.
    unfold wait_first_connect in *.
    apply wait_for_flag_true in Hw.
    by rewrite wait_for_flag_set by (done || by apply run_connected_once).
  - intros timeout window c Hle%Qle_bool_iff.
    unfold wait_first_connect, wait_for_flag. by rewrite Hle.
  - intros es. by apply run_ready.
Qed.

(** C10. A client that has never connected (no connection has succeeded in
    its history; equivalently its "connected once" latch is unset) reports
    0.0 as its last receive time; a successful connection stores the clock
    reading taken at that moment, before any frame has arrived; each frame
    received, whatever it contains, stores the reading taken on its arrival;
    nothing else writes the timestamp. *)
Theorem last_rx_tracking :
  last_rx_monotonic new_client = 0%Q /\
  (forall es, Forall no_connection es ->
     last_rx_monotonic (run es new_client).1 = 0%Q) /\
  (forall es, _connected_once (run es new_client).1 = false ->
     last_rx_monotonic (run es new_client).1 = 0%Q) /\
  (forall c ws now, connecting c = true ->
     last_rx_monotonic (step (EvConnected ws now) c).1 = now) /\
  (forall c raw now send_res cb_res, receiving c = true ->
     last_rx_monotonic (step (EvFrame raw now send_res cb_res) c).1 = now) /\
  (forall e c, reads_clock e = false ->
     last_rx_monotonic (step e c).1 = last_rx_monotonic c).
Proof.
  split; [done|]. split; [|split; [|split; [|split]]].
  - intros es Hes.
    pose proof (run_no_connection es new_client Hes eq_refl) as Hc.
    by destruct (run_never_connected es new_client) as [H _].
  - intros es Hc.
    by destruct (run_never_connected es new_client) as [H _].
  - intros c ws now. unfold connecting. simpl.
    by destruct (_task c) as [[[] bk]|].
  - intros c raw now send_res cb_res Hrecv.
    by destruct (step_frame_flags raw now send_res cb_res c Hrecv) as (_ & H & _).
  - apply step_last_rx_other.
Qed.

(** ** Sessions and lifecycle *)

Lemma step_frame_cases raw now send_res cb_res c bk :
  _task c = Some (Loop Receiving bk) ->
  (_task (step (EvFrame raw now send_res cb_res) c).1 = _task c /\
   _ws (step (EvFrame raw now send_res cb_res) c).1 = _ws c /\
   _hb_task (step (EvFrame raw now send_res cb_res) c).1 = _hb_task c /\
   _tick_task (step (EvFrame raw now send_res cb_res) c).1 = _tick_task c /\
   _ws_ready (step (EvFrame raw now send_res cb_res) c).1 = _ws_ready c /\
   _stop (step (EvFrame raw now send_res cb_res) c).1 = _stop c /\
   sleeps (step (EvFrame raw now send_res cb_res) c).2 = []) \/
  ((send_res = Cancelled \/ cb_res = Cancelled) /\
   _task (step (EvFrame raw now send_res cb_res) c).1 = Some (Loop Exited bk) /\
   _ws (step (EvFrame raw now send_res cb_res) c).1 = None /\
   _hb_task (step (EvFrame raw now send_res cb_res) c).1 = false /\
   _tick_task (step (EvFrame raw now send_res cb_res) c).1 = false /\
   _ws_ready (step (EvFrame raw now send_res cb_res) c).1 = false /\
   _stop (step (EvFrame raw now send_res cb_res) c).1 = _stop c).
Proof.
  intros Htask. simpl. rewrite Htask. simpl. unfold handle_frame.
  destruct (String.eqb _ "ok"); [left; by rewrite <- Htask|].
  destruct (json_loads _) as [[| | | | | |d]|]; try (left; by rewrite <- Htask).
  destruct (eq_str _ _).
  - destruct send_res; simpl; try (left; by rewrite <- Htask). right. tauto.
  - destruct cb_res; simpl; try (left; by rewrite <- Htask). right. tauto.
Qed.

Lemma step_session_consistent e c :
  session_consistent c -> session_consistent (step e c).1.
Proof.
  unfold session_consistent, has_session. intros (Hws & Hhb & Htick & Hready).
  destruct e as [| |joined| |ws now|jitter|raw now send_res cb_res|error jitter| |].
  7: { destruct (receiving c) eqn:Hrecv.
       - destruct (receiving_task c Hrecv) as [bk Htask].
         destruct (step_frame_cases raw now send_res cb_res c bk Htask)
           as [(H1 & H2 & H3 & H4 & H5 & _)|(_ & H1 & H2 & H3 & H4 & H5 & _)];
           unfold receiving in *; rewrite H1, H2, H3, H4, H5; try done.
         by rewrite Htask in *.
       - unfold receiving in *. by loop_cases c. }
  all: unfold receiving in *; loop_cases c; try done.
  all: by destruct joined; simpl; rewrite ?Htask.
Qed.

Lemma run_session_consistent es c :
  session_consistent c -> session_consistent (run es c).1.
Proof.
  revert c. induction es as [|e es IH]; intros c Hc; [done|].
  rewrite run_cons. simpl. apply IH. by apply step_session_consistent.
Qed.

Lemma reachable_session_consistent es :
  session_consistent (run es new_client).1.
Proof. by apply run_session_consistent. Qed.

(** X3. At every point of every history the session handle [_ws], the two
    helper-task handles and the readiness flag are set exactly while the
    loop is inside its receive loop: there is never a session, a heartbeat
    task or a poller outside a live connection, and never a live connection
    without them. *)
Theorem session_exactly_while_receiving (es : list event) :
  has_session (run es new_client).1 = receiving (run es new_client).1 /\
  _hb_task (run es new_client).1 = receiving (run es new_client).1 /\
  _tick_task (run es new_client).1 = receiving (run es new_client).1 /\
  _ws_ready (run es new_client).1 = receiving (run es new_client).1.
Proof. apply reachable_session_consistent. Qed.

Lemma join_resets c :
  session_consistent c ->
  _task (step (OpStopJoin true) c).1 = None /\
  _ws (step (OpStopJoin true) c).1 = None /\
  _ws_ready (step (OpStopJoin true) c).1 = false /\
  _hb_task (step (OpStopJoin true) c).1 = false /\
  _tick_task (step (OpStopJoin true) c).1 = false /\
  _state (step (OpStopJoin true) c).1 = _state c /\
  _connected_once (step (OpStopJoin true) c).1 = _connected_once c /\
  _last_rx (step (OpStopJoin true) c).1 = _last_rx c /\
  _stop (step (OpStopJoin true) c).1 = _stop c.
Proof.
  unfold session_consistent, has_session, receiving.
  intros (Hws & Hhb & Htick & Hready).
  loop_cases c; destruct (_ws c); simpl in *; repeat split; congruence.
Qed.

(** X6. The second half of [stop()], once its [await self._task] has
    returned, leaves any client it is applied to without task, session,
    readiness flag or helper tasks, whatever the loop was doing; it keeps
    the merged state, the latch, the receive timestamp and the stop flag;
    and a second stop finds nothing left to do. *)
Theorem stop_leaves_nothing_running (es : list event) :
  let c := (run es new_client).1 in
  let c' := (step (OpStopJoin true) c).1 in
  (_task c' = None /\ _ws c' = None /\ _ws_ready c' = false /\
   _hb_task c' = false /\ _tick_task c' = false) /\
  (_state c' = _state c /\ _connected_once c' = _connected_once c /\
   _last_rx c' = _last_rx c /\ _stop c' = _stop c) /\
  run [OpStopRequest; OpStopJoin true] c' = (set_stop true c', []).
Proof.
  intros c c'.
  destruct (join_resets c (reachable_session_consistent es))
    as (Ht & Hws & Hr & Hhb & Htk & Hs & Hl & Hrx & Hst).
  fold c' in Ht, Hws, Hr, Hhb, Htk, Hs, Hl, Hrx, Hst.
  split; [tauto|]. split; [tauto|].
  simpl. by rewrite Ht.
Qed.

(** X7. [start()] is idempotent, and it does nothing while [_task] is set,
    even when that task has already exited.  On a client without a task it
    clears the stop flag, so the new task enters its first connection
    attempt with the minimum backoff; the merged state, the latch and the
    receive timestamp survive the restart. *)
Theorem start_once (c : client) :
  step OpStart (step OpStart c).1 = ((step OpStart c).1, []) /\
  (is_Some (_task c) -> step OpStart c = (c, [])) /\
  (_task c = None ->
   let c' := (run [OpStart; EvTaskStart] c).1 in
   _task c' = Some (Loop Connecting RETRY_MIN_BACKOFF) /\
   _stop c' = false /\ _state c' = _state c /\
   _connected_once c' = _connected_once c /\ _last_rx c' = _last_rx c).
Proof.
  split; [|split].
  - simpl. destruct (_task c) eqn:Htask; simpl; by rewrite ?Htask.
  - intros [l Htask]. simpl. by rewrite Htask.
  - intros Htask. simpl. by rewrite Htask.
Qed.

Lemma step_connecting_stopped e c :
  _stop c = true -> connecting (step e c).1 = true -> connecting c = true.
Proof.
  intros Hstop.
  destruct e as [| |joined| |ws now|jitter|raw now send_res cb_res|error jitter| |].
  7: { destruct (receiving c) eqn:Hrecv.
       - destruct (receiving_task c Hrecv) as [bk Htask].
         destruct (step_frame_cases raw now send_res cb_res c bk Htask)
           as [(H1 & _)|(_ & H1 & _)]; unfold connecting; rewrite H1; [|done].
         by rewrite Htask.
       - unfold receiving in Hrecv. unfold connecting. by loop_cases c. }
  all: unfold connecting; loop_cases c; try done; try congruence.
  all: by destruct joined; simpl; rewrite ?Htask.
Qed.

(** X8. Once the stop flag is set the loop starts no connection attempt: an
    event can leave the loop waiting in [websockets.connect] only if it was
    already waiting there; and a loop that wakes from its backoff wait with
    the flag set exits. *)
Theorem no_connection_attempt_after_stop :
  (forall e c, _stop c = true ->
     connecting (step e c).1 = true -> connecting c = true) /\
  (forall c sleep_for bk, _stop c = true ->
     _task c = Some (Loop (Sleeping sleep_for) bk) ->
     loop_pc (step EvSleepDone c).1 = Some Exited /\
     (step EvSleepDone c).2 = [Log DEBUG "K1C WS loop exited"]).
Proof.
  split.
  - apply step_connecting_stopped.
  - intros c sleep_for bk Hstop Htask. unfold loop_pc. simpl.
    rewrite Htask. simpl. unfold loop_head. by rewrite Hstop.
Qed.

(** X4. No frame ends the connection: whatever a frame contains, and
    whether the acknowledgement write or the observer fails, a loop that is
    not cancelled stays in its receive loop with the same session, the same
    helper tasks and the same backoff, and goes to no backoff wait. *)
Theorem frames_keep_the_session raw now send_res cb_res c :
  receiving c = true ->
  send_res <> Cancelled -> cb_res <> Cancelled ->
  receiving (step (EvFrame raw now send_res cb_res) c).1 = true /\
  _task (step (EvFrame raw now send_res cb_res) c).1 = _task c /\
  _ws (step (EvFrame raw now send_res cb_res) c).1 = _ws c /\
  _hb_task (step (EvFrame raw now send_res cb_res) c).1 = _hb_task c /\
  _tick_task (step (EvFrame raw now send_res cb_res) c).1 = _tick_task c /\
  sleeps (step (EvFrame raw now send_res cb_res) c).2 = [].
Proof.
  intros Hrecv Hs Hc. destruct (receiving_task c Hrecv) as [bk Htask].
  destruct (step_frame_cases raw now send_res cb_res c bk Htask)
    as [(H1 & H2 & H3 & H4 & _ & _ & H5)|([?|?] & _)]; try done.
  unfold receiving in *. rewrite H1. tauto.
Qed.

Lemma step_outbound e c :
  Forall (fun text => text = "ok") (outbound (step e c).2).
Proof.
  destruct e as [| |joined| |ws now|jitter|raw now send_res cb_res|error jitter| |].
  7: { simpl. destruct (_task c) as [[[] bk]|]; simpl; try by constructor.
       unfold handle_frame.
       destruct (String.eqb _ "ok"); [by constructor|].
       destruct (json_loads _) as [[| | | | | |d]|]; try by constructor.
       destruct (eq_str _ _).
       - destruct send_res; simpl; by repeat constructor.
       - destruct cb_res; simpl; by repeat constructor. }
  all: loop_cases c; try by constructor.
  all: try (destruct joined; by constructor).
  all: destruct error; by constructor.
Qed.

(** X5. The connectivity loop writes nothing to the socket but the bare
    acknowledgement [ok]: in every history, every text it sends is [ok]. *)
Theorem loop_only_writes_ok (es : list event) (c : client) :
  Forall (fun text => text = "ok") (outbound (run es c).2).
Proof.
  revert c. induction es as [|e es IH]; intros c; [by constructor|].
  rewrite run_cons. simpl snd. unfold outbound in *. rewrite omap_app.
  apply Forall_app. split; [apply step_outbound|apply IH].
Qed.

Lemma foldl_update_coerce (ups : list (gmap string value)) (d : gmap string value) :
  foldl update (coerce d) (coerce <$> ups) = coerce (foldl update d ups).
Proof.
  revert d. induction ups as [|u ups IH]; intros d; [done|].
  simpl. rewrite <- coerce_numbers_update. apply IH.
Qed.

(** X2. The merged state is the coercion of the plain last-writer-wins merge
    of the delivered payloads, so it never holds a string that [int] or
    [float] would have converted: every value in it is left unchanged by
    the coercion. *)
Theorem merged_state_is_coerced (es : list event) :
  _state (run es new_client).1 =
    coerce (foldl update ∅ (delivered_updates es new_client)) /\
  (forall k v, _state (run es new_client).1 !! k = Some v ->
     coerce_value py_int py_float v = v).
Proof.
  assert (_state (run es new_client).1 =
            coerce (foldl update ∅ (delivered_updates es new_client))) as Hs.
  { destruct (run_merge es new_client) as [-> _]. simpl.
    rewrite <- foldl_update_coerce. by rewrite _coerce_numbers_fmap, fmap_empty. }
  split; [exact Hs|]. intros k v. rewrite Hs, lookup_coerce_numbers.
  destruct (_ !! k) as [v'|]; [|done]. simpl. intros [= <-].
  apply coerce_value_idempotent.
Qed.

Lemma step_stays_down e c :
  no_connection e -> receiving c = false -> receiving (step e c).1 = false.
Proof.
  intros He Hrecv. unfold receiving in *.
  destruct e as [| |joined| |ws now|jitter|raw now send_res cb_res|error jitter| |];
    try done.
  all: loop_cases c; try done.
  all: by destruct joined; simpl; rewrite ?Htask.
Qed.

Lemma wait_ready_times_out timeout window c :
  session_consistent c -> receiving c = false ->
  Forall no_connection window ->
  wait_for_flag _ws_ready timeout window c = (false, (run window c).1).
Proof.
  unfold wait_for_flag. destruct (Qle_bool timeout 0); [done|].
  revert c. induction window as [|e window IH]; intros c Hc Hrecv Hw; simpl.
  - destruct Hc as (_ & _ & _ & ->). by rewrite Hrecv.
  - inversion Hw; subst.
    assert (_ws_ready c = false) as -> by (destruct Hc as (_ & _ & _ & ->); done).
    rewrite IH; [|by apply step_session_consistent|by apply step_stays_down|done].
    destruct (step e c) as [c' effs]. simpl.
    by destruct (run window c').
Qed.

(** ** The backoff schedule *)

Lemma py_min_le_r (a b : Q) : (py_min a b <= b)%Q.
Proof.
  unfold py_min. destruct (b ?= a)%Q eqn:Hcmp.
  - apply Qeq_alt in Hcmp. lra.
  - lra.
  - apply Qgt_alt in Hcmp. lra.
Qed.

Lemma py_min_glb (a b x : Q) : (x <= a -> x <= b -> x <= py_min a b)%Q.
Proof. unfold py_min. by destruct (b ?= a)%Q. Qed.

Lemma py_min_l (a b : Q) : (a <= b)%Q -> py_min a b = a.
Proof.
  unfold py_min. intros Hle. destruct (b ?= a)%Q eqn:Hcmp; try done.
  apply Qlt_alt in Hcmp. lra.
Qed.

Lemma backoff_grows (bk jitter : Q) :
  (0 <= bk -> 0 <= jitter -> bk <= bk * (1.8 + jitter))%Q.
Proof. intros. nra. Qed.

Lemma next_delay_bounds (bk jitter : Q) :
  (0 <= bk)%Q -> (bk <= RETRY_MAX_BACKOFF)%Q -> (0 <= jitter)%Q ->
  (bk <= py_min (bk * (1.8 + jitter)) RETRY_MAX_BACKOFF /\
   py_min (bk * (1.8 + jitter)) RETRY_MAX_BACKOFF <= RETRY_MAX_BACKOFF)%Q.
Proof.
  intros. split; [|apply py_min_le_r].
  apply py_min_glb; [by apply backoff_grows|done].
Qed.

Section Backoff.

Hypothesis min_nonneg : (0 <= RETRY_MIN_BACKOFF)%Q.

Hypothesis min_le_max : (RETRY_MIN_BACKOFF <= RETRY_MAX_BACKOFF)%Q.

Lemma step_backoff_bounded e c :
  jitter_in_range e -> backoff_bounded c -> backoff_bounded (step e c).1.
Proof.
  unfold backoff_bounded. intros Hj Hb.
  destruct e as [| |joined| |ws now|jitter|raw now send_res cb_res|error jitter| |].
  7: { simpl. destruct (_task c) as [[pc bk]|] eqn:Htask; [|simpl; by rewrite Htask].
       destruct pc; simpl; rewrite ?Htask; try done.
       pose proof (handle_frame_flags raw now send_res cb_res c) as H.
       destruct (handle raw now send_res cb_res c) as [[c1 effs] []]; simpl in *.
       - tauto.
       - destruct H as [-> _]. by rewrite Htask. }
  all: loop_cases c; try done; try (by destruct joined; simpl; rewrite ?Htask).
  all: simpl in *; try (split; [lra|done]); try tauto.
  all: try (destruct Hb as [[Hb0 Hb1] Hs]; pose proof (proj1 Hj) as Hj0;
            pose proof (next_delay_bounds bk jitter Hb0 Hb1 Hj0); tauto).
  all: try (destruct joined; simpl; rewrite ?Htask; simpl; tauto).
  all: destruct Hb as [[Hb0 Hb1] [Hs0 Hs1]]; rewrite py_min_l by done;
       split; [lra|done].
Qed.

Lemma run_backoff_bounded es c :
  Forall jitter_in_range es -> backoff_bounded c -> backoff_bounded (run es c).1.
Proof.
  revert c. induction es as [|e es IH]; intros c Hj Hb; [done|].
  rewrite run_cons. simpl. inversion Hj; subst.
  apply IH; [done|]. by apply step_backoff_bounded.
Qed.

Lemma step_failure e c :
  failure e -> jitter_in_range e -> backoff_bounded c ->
  (current_delay c <= current_delay (step e c).1)%Q /\
  (sleeps (step e c).2 = [] \/
   sleeps (step e c).2 = [current_delay (step e c).1]).
Proof.
  unfold backoff_bounded, current_delay. intros Hf Hj Hb.
  destruct e as [| |joined| |ws now|jitter|raw now send_res cb_res|error jitter| |];
    try done.
  all: try destruct error.
  all: loop_cases c; try (split; [lra|by left]).
  all: simpl in *.
  all: try (destruct Hb as [[Hb0 Hb1] Hs]; pose proof (proj1 Hj) as Hj0;
            pose proof (next_delay_bounds bk jitter Hb0 Hb1 Hj0);
            split; [tauto|by right]).
  all: destruct Hb as [[Hb0 Hb1] [Hs0 Hs1]]; rewrite py_min_l by done;
       split; [lra|by left].
Qed.

Lemma run_failures es c :
  Forall failure es -> Forall jitter_in_range es -> backoff_bounded c ->
  Sorted Qle (sleeps (run es c).2) /\
  Forall (fun d => (current_delay c <= d /\ d <= RETRY_MAX_BACKOFF)%Q)
    (sleeps (run es c).2).
Proof.
  revert c. induction es as [|e es IH]; intros c Hf Hj Hb.
  { split; constructor. }
  inversion Hf as [|? ? Hfe Hfes]; inversion Hj as [|? ? Hje Hjes]; subst.
  rewrite run_cons. simpl snd. unfold sleeps in *. rewrite omap_app.
  pose proof (step_backoff_bounded e c Hje Hb) as Hb'.
  destruct (IH (step e c).1 Hfes Hjes Hb') as [IHs IHb].
  destruct (step_failure e c Hfe Hje Hb) as [Hle Hsl].
  assert (Forall (fun d => (current_delay c <= d /\ d <= RETRY_MAX_BACKOFF)%Q)
            (omap (fun e => match e with Sleep d => Some d | _ => None end)
               (run es (step e c).1).2)) as Hrest.
  { eapply Forall_impl; [exact IHb|]. simpl. intros d [? ?]. split; [lra|done]. }
  unfold sleeps in Hsl. destruct Hsl as [-> | ->]; simpl.
  - done.
  - split.
    + constructor; [done|].
      destruct IHb as [|d ds [Hd _] _]; constructor. exact Hd.
    + constructor; [|done]. split; [done|].
      clear -Hb' min_nonneg min_le_max. unfold backoff_bounded, current_delay in *.
      destruct (_task (step e c).1) as [[[] bk]|]; simpl in *; lra.
Qed.

(** C4. With [0 <= RETRY_MIN_BACKOFF <= RETRY_MAX_BACKOFF] and every jitter
    between 0 and 0.4: a failed connection attempt and a disconnect make
    the loop sleep [min(backoff * (1.8 + jitter), RETRY_MAX_BACKOFF)], and
    that delay is the next value of [backoff]; in any run of consecutive
    failures, at any point of any history, the delays slept never decrease
    and never exceed [RETRY_MAX_BACKOFF]; a successful connection sets
    [backoff] back to [RETRY_MIN_BACKOFF]. *)
Theorem backoff_schedule :
  (forall c bk jitter error,
     let delay := py_min (bk * (1.8 + jitter))%Q RETRY_MAX_BACKOFF in
     (_task c = Some (Loop Connecting bk) ->
      (step (EvConnectFailed jitter) c).2 =
        [Log WARNING "K1C WS connection error"; Sleep delay] /\
      _task (step (EvConnectFailed jitter) c).1 = Some (Loop (Sleeping delay) bk)) /\
     (_task c = Some (Loop Receiving bk) ->
      sleeps (step (EvClosed error jitter) c).2 = [delay] /\
      _task (step (EvClosed error jitter) c).1 = Some (Loop (Sleeping delay) bk)) /\
     (_task c = Some (Loop (Sleeping delay) bk) ->
      exists pc, _task (step EvSleepDone c).1 =
                   Some (Loop pc (py_min delay RETRY_MAX_BACKOFF)) /\
                 py_min delay RETRY_MAX_BACKOFF = delay)) /\
  (forall history failures,
     Forall jitter_in_range (history ++ failures) ->
     Forall failure failures ->
     let delays := sleeps (run failures (run history new_client).1).2 in
     Sorted Qle delays /\
     Forall (fun d => (d <= RETRY_MAX_BACKOFF)%Q) delays) /\
  (forall c bk ws now,
     _task c = Some (Loop Connecting bk) ->
     _task (step (EvConnected ws now) c).1 =
       Some (Loop Receiving RETRY_MIN_BACKOFF)).
Proof.
  split; [|split].
  - intros c bk jitter error delay. split; [|split]; intros Htask; simpl;
      rewrite Htask; simpl.
    + done.
    + by destruct error.
    + rewrite (py_min_l delay) by apply py_min_le_r.
      unfold loop_head. destruct (_stop c); eauto.
  - intros history failures [Hh Hf]%Forall_app Hfail delays.
    destruct (run_failures failures (run history new_client).1 Hfail Hf)
      as [Hs Hb].
    { by apply run_backoff_bounded. }
    split; [done|]. eapply Forall_impl; [exact Hb|]. simpl. tauto.
  - intros c bk ws now Htask. simpl. by rewrite Htask.
Qed.

Lemma py_min_le_l (a b : Q) : (py_min a b <= a)%Q.
Proof.
  unfold py_min. destruct (b ?= a)%Q eqn:Hcmp; try lra.
  apply Qlt_alt in Hcmp. lra.
Qed.

Lemma py_min_mono (a a' b : Q) : (a <= a')%Q -> (py_min a b <= py_min a' b)%Q.
Proof.
  intros H. apply py_min_glb; [|apply py_min_le_r].
  pose proof (py_min_le_l a b). lra.
Qed.

Lemma step_frame_sleeps raw now send_res cb_res c :
  sleeps (step (EvFrame raw now send_res cb_res) c).2 = [].
Proof.
  simpl. destruct (_task c) as [[[] bk]|]; simpl; try done.
  unfold handle_frame.
  destruct (String.eqb _ "ok"); [done|].
  destruct (json_loads _) as [[| | | | | |d]|]; try done.
  destruct (eq_str _ _).
  - by destruct send_res.
  - by destruct cb_res.
Qed.

Lemma step_backoff_in_range e c :
  jitter_in_range e ->
  backoff_in_range RETRY_MIN_BACKOFF RETRY_MAX_BACKOFF c ->
  backoff_in_range RETRY_MIN_BACKOFF RETRY_MAX_BACKOFF (step e c).1 /\
  Forall (fun d => (RETRY_MIN_BACKOFF <= d /\ d <= RETRY_MAX_BACKOFF)%Q)
    (sleeps (step e c).2).
Proof.
  unfold backoff_in_range. intros Hj Hb.
  destruct e as [| |joined| |ws now|jitter|raw now send_res cb_res|error jitter| |].
  7: { rewrite step_frame_sleeps. split; [|constructor].
       destruct (_task c) as [[pc bk]|] eqn:Htask.
       - destruct pc.
         3: { destruct (step_frame_cases raw now send_res cb_res c bk Htask)
                as [(H1 & _)|(_ & H1 & _)]; rewrite H1, ?Htask; simpl; tauto. }
         all: simpl; rewrite Htask; simpl; by rewrite Htask.
       - simpl. rewrite Htask. simpl. by rewrite Htask. }
  all: try destruct error.
  all: loop_cases c; simpl in *; try (split; [done|constructor]).
  all: try (destruct joined; simpl; rewrite ?Htask; simpl;
            (split; [tauto|constructor])).
  all: try (split; [|constructor]; split; [lra|done]).
  all: try (destruct Hb as [[Hb0 Hb1] Hs]; pose proof (proj1 Hj) as Hj0;
            assert (0 <= bk)%Q as Hbk by lra;
            pose proof (next_delay_bounds bk jitter Hbk Hb1 Hj0) as [Hd0 Hd1];
            split; [tauto|repeat constructor; (lra || done)]).
  all: destruct Hb as [[Hb0 Hb1] [Hs0 Hs1]]; rewrite py_min_l by done;
       (split; [|constructor]); split; [lra|done].
Qed.

Lemma run_backoff_in_range es c :
  Forall jitter_in_range es ->
  backoff_in_range RETRY_MIN_BACKOFF RETRY_MAX_BACKOFF c ->
  backoff_in_range RETRY_MIN_BACKOFF RETRY_MAX_BACKOFF (run es c).1 /\
  Forall (fun d => (RETRY_MIN_BACKOFF <= d /\ d <= RETRY_MAX_BACKOFF)%Q)
    (sleeps (run es c).2).
Proof.
  revert c. induction es as [|e es IH]; intros c Hj Hb.
  { split; [done|constructor]. }
  inversion Hj; subst. rewrite run_cons. simpl fst. simpl snd.
  destruct (step_backoff_in_range e c) as [Hb' Hd]; [done..|].
  destruct (IH (step e c).1) as [Hb'' Hd']; [done..|].
  split; [done|]. unfold sleeps in *. rewrite omap_app. by apply Forall_app.
Qed.

(** X9. With [0 <= RETRY_MIN_BACKOFF <= RETRY_MAX_BACKOFF] and every jitter
    between 0 and 0.4, in every history (frames, disconnects, stops and
    restarts included) the loop's [backoff] stays between the two
    constants, and no reconnect delay is shorter than [RETRY_MIN_BACKOFF]
    or longer than [RETRY_MAX_BACKOFF]. *)
Theorem backoff_within_bounds (es : list event) :
  Forall jitter_in_range es ->
  (forall l, _task (run es new_client).1 = Some l ->
     (RETRY_MIN_BACKOFF <= backoff l /\ backoff l <= RETRY_MAX_BACKOFF)%Q) /\
  Forall (fun d => (RETRY_MIN_BACKOFF <= d /\ d <= RETRY_MAX_BACKOFF)%Q)
    (sleeps (run es new_client).2).
Proof.
  intros Hj. destruct (run_backoff_in_range es new_client Hj) as [Hb Hd]; [done|].
  split; [|done]. intros l Hl. unfold backoff_in_range in Hb.
  rewrite Hl in Hb. tauto.
Qed.

Lemma after_failures_mono (b b' : Q) (n : nat) :
  (b <= b')%Q -> (after_failures b n <= after_failures b' n)%Q.
Proof. intros H. induction n as [|n IH]; simpl; lra. Qed.

Lemma after_failures_shift (b : Q) (n : nat) :
  (after_failures b (S n) <= after_failures (b * 1.5) n)%Q.
Proof. induction n as [|n IH]; simpl in *; lra. Qed.

Lemma after_failures_ge (b : Q) (n : nat) :
  (0 <= b)%Q -> (b <= after_failures b n)%Q.
Proof. intros H. induction n as [|n IH]; simpl; lra. Qed.

Lemma capped_growth_mono (a b : Q) (n : nat) :
  (0 <= b)%Q -> (py_min a RETRY_MAX_BACKOFF <= b)%Q ->
  (py_min (after_failures a n) RETRY_MAX_BACKOFF <=
   py_min (after_failures b n) RETRY_MAX_BACKOFF)%Q.
Proof.
  intros Hb Hab. destruct (Qlt_le_dec RETRY_MAX_BACKOFF a) as [Hlt|Hle].
  - assert (py_min a RETRY_MAX_BACKOFF = RETRY_MAX_BACKOFF) as Heq.
    { unfold py_min. destruct (RETRY_MAX_BACKOFF ?= a)%Q eqn:Hcmp; [|done|].
      - apply Qeq_alt in Hcmp. lra.
      - apply Qgt_alt in Hcmp. lra. }
    rewrite Heq in Hab.
    pose proof (py_min_le_r (after_failures a n) RETRY_MAX_BACKOFF).
    pose proof (after_failures_ge b n Hb).
    assert (RETRY_MAX_BACKOFF <= py_min (after_failures b n) RETRY_MAX_BACKOFF)%Q
      by (apply py_min_glb; lra).
    lra.
  - rewrite (py_min_l a) in Hab by done.
    apply py_min_mono. by apply after_failures_mono.
Qed.

Lemma step_failure_grows e c :
  failure e -> jitter_in_range e -> backoff_bounded c ->
  (sleeps (step e c).2 = [] /\
   (current_delay c <= current_delay (step e c).1)%Q) \/
  (sleeps (step e c).2 = [current_delay (step e c).1] /\
   (py_min (current_delay c * 1.5) RETRY_MAX_BACKOFF <=
    current_delay (step e c).1)%Q).
Proof.
  unfold backoff_bounded, current_delay. intros Hf Hj Hb.
  destruct e as [| |joined| |ws now|jitter|raw now send_res cb_res|error jitter| |];
    try done.
  all: try destruct error.
  all: loop_cases c; simpl in *; try (left; split; [done|lra]).
  all: try (right; split; [done|];
            destruct Hb as [[Hb0 Hb1] Hs]; pose proof (proj1 Hj) as Hj0;
            apply py_min_mono; nra).
  all: destruct Hb as [[Hb0 Hb1] [Hs0 Hs1]]; rewrite py_min_l by done;
       left; split; [done|lra].
Qed.

Lemma run_failures_grow failures c :
  Forall failure failures -> Forall jitter_in_range failures ->
  backoff_bounded c ->
  forall k d, sleeps (run failures c).2 !! k = Some d ->
    (py_min (after_failures (current_delay c) (S k)) RETRY_MAX_BACKOFF <= d)%Q.
Proof.
  revert c. induction failures as [|e es IH]; intros c Hf Hj Hb k d; [done|].
  inversion Hf as [|? ? Hfe Hfes]; inversion Hj as [|? ? Hje Hjes]; subst.
  rewrite run_cons. simpl snd. unfold sleeps in *. rewrite omap_app.
  pose proof (step_backoff_bounded e c Hje Hb) as Hb'.
  specialize (IH (step e c).1 Hfes Hjes Hb').
  assert (0 <= current_delay (step e c).1)%Q as Hpos.
  { clear -Hb' min_nonneg min_le_max. unfold backoff_bounded, current_delay in *.
    destruct (_task (step e c).1) as [[[] bk]|]; simpl in *; lra. }
  destruct (step_failure_grows e c Hfe Hje Hb) as [[Hs Hle]|[Hs Hle]];
    unfold sleeps in Hs; rewrite Hs; intros Hd; simpl in Hd.
  - specialize (IH k d Hd).
    pose proof (py_min_mono _ _ RETRY_MAX_BACKOFF
                  (after_failures_mono _ _ (S k) Hle)). lra.
  - destruct k as [|k]; simpl in Hd.
    + injection Hd as <-. exact Hle.
    + specialize (IH k d Hd).
      pose proof (py_min_mono _ _ RETRY_MAX_BACKOFF
                    (after_failures_shift (current_delay c) (S k))) as H1.
      pose proof (capped_growth_mono (current_delay c * 1.5)
                    (current_delay (step e c).1) (S k) Hpos Hle) as H2.
      lra.
Qed.

Lemma run_failures_no_task es c :
  Forall failure es -> _task c = None -> run es c = (c, []).
Proof.
  induction es as [|e es IH]; intros Hf Htask; [done|].
  inversion Hf as [|? ? Hfe Hfes]; subst. rewrite run_cons.
  assert (step e c = (c, [])) as ->.
  { destruct e; try done; simpl; by rewrite Htask. }
  simpl. by rewrite IH.
Qed.

(** X10. The backoff really grows: in a run of consecutive failures, at any
    point of any history, the delay slept after the (k+1)-th failure is at
    least [min(d * 1.5^(k+1), RETRY_MAX_BACKOFF)], where [d] is the delay
    the loop was at when the run began, and [d] is at least
    [RETRY_MIN_BACKOFF].  The code multiplies by [1.8 + jitter]; the bound
    is stated with the factor 3/2 so that it does not depend on how the sum
    and the product are rounded. *)
Theorem backoff_grows_geometrically (history failures : list event) :
  Forall jitter_in_range (history ++ failures) ->
  Forall failure failures ->
  let c := (run history new_client).1 in
  forall k d, sleeps (run failures c).2 !! k = Some d ->
    (py_min (after_failures (current_delay c) (S k)) RETRY_MAX_BACKOFF <= d /\
     py_min (after_failures RETRY_MIN_BACKOFF (S k)) RETRY_MAX_BACKOFF <= d)%Q.
Proof.
  intros [Hh Hf]%Forall_app Hfail c k d Hd.
  assert (backoff_bounded c) as Hb by by apply run_backoff_bounded.
  pose proof (run_failures_grow failures c Hfail Hf Hb k d Hd) as Hgrow.
  split; [exact Hgrow|].
  destruct (run_backoff_in_range history new_client Hh) as [Hr _]; [done|].
  fold c in Hr. unfold backoff_in_range in Hr.
  assert (RETRY_MIN_BACKOFF <= current_delay c)%Q as Hmin.
  { unfold current_delay. destruct (_task c) as [[[] bk]|] eqn:Htask;
      simpl in *; try lra.
    by rewrite (run_failures_no_task failures c Hfail Htask) in Hd. }
  pose proof (py_min_mono _ _ RETRY_MAX_BACKOFF
                (after_failures_mono _ _ (S k) Hmin)). lra.
Qed.

End Backoff.

End ClientFacts.

(** ** Binary frames *)

Section BinaryFrames.

Variable py_int : string -> option Z.
Variable py_float : string -> option PrimFloat.float.
Variable json_loads : string -> option value.
Variable RETRY_MIN_BACKOFF RETRY_MAX_BACKOFF : Q.

Local Abbreviation coerce := (_coerce_numbers py_int py_float).
Local Abbreviation step := (step py_int py_float json_loads decode_ignore
                              RETRY_MIN_BACKOFF RETRY_MAX_BACKOFF).
Local Abbreviation state_update := (state_update json_loads decode_ignore).

(** C9. The decoding of a binary frame: the UTF-8 encoding of a text
    decodes to that text, also when a byte that cannot start a sequence
    sits between two of its parts; whatever the bytes, the result is a
    well-formed text whose encoding is the input with bytes taken out.
    The loop then treats the frame exactly as the text frame carrying that
    result: a state update is merged and handed to the observer, and a
    decoding equal to [ok] only records the time of receipt (no write, no
    callback, no change of the merged state). *)
Theorem binary_frame_as_text :
  (forall s junk t, well_formed s -> well_formed t -> undecodable junk = true ->
     decode_ignore (Utf8.encode s) = text_of s /\
     decode_ignore (Utf8.encode s ++ junk :: Utf8.encode t) = text_of (s ++ t)) /\
  (forall raw, exists s,
     well_formed s /\ decode_ignore raw = text_of s /\
     sublist (Utf8.encode s) raw) /\
  (forall raw now send_res cb_res c,
     step (EvFrame (Binary raw) now send_res cb_res) c =
       step (EvFrame (Text (decode_ignore raw)) now send_res cb_res) c) /\
  (forall raw now send_res cb_res c d,
     receiving c = true ->
     state_update (Text (decode_ignore raw)) = Some d ->
     _state (step (EvFrame (Binary raw) now send_res cb_res) c).1 =
       update (_state c) (coerce d) /\
     callbacks (step (EvFrame (Binary raw) now send_res cb_res) c).2 =
       [update (_state c) (coerce d)]) /\
  (forall raw now send_res cb_res c,
     decode_ignore raw = "ok" ->
     step (EvFrame (Binary raw) now send_res cb_res) c =
       (if receiving c then set_last_rx now c else c, [])).
Proof.
  split; [|split; [|split; [|split]]].
  - intros s junk t Hs Ht Hjunk. unfold decode_ignore. split.
    + rewrite <- (app_nil_r (Utf8.encode s)), decode_encode by done.
      by rewrite app_nil_r.
    + rewrite decode_encode, decode_undecodable by done.
      rewrite <- (app_nil_r (Utf8.encode t)), decode_encode by done.
      by rewrite app_nil_r.
  - intros raw. exists (Utf8.decode raw).
    destruct (decode_drops_only raw) as [Hs Hsub]. done.
  - done.
  - intros raw now send_res cb_res c d Hrecv Hupd.
    pose proof (step_merge py_int py_float json_loads decode_ignore
                  RETRY_MIN_BACKOFF RETRY_MAX_BACKOFF
                  (EvFrame (Binary raw) now send_res cb_res) c) as H.
    unfold delivered_update in H. rewrite Hrecv in H.
    change (state_update (Binary raw))
      with (state_update (Text (decode_ignore raw))) in H.
    by rewrite Hupd in H.
  - intros raw now send_res cb_res c Hok. unfold receiving. simpl.
    destruct (_task c) as [[[] bk]|]; try done.
    simpl. unfold handle_frame. by rewrite Hok.
Qed.

End BinaryFrames.

(** ** The command sender *)

Section SenderFacts.

Variable json_dumps : value -> string + exn.
Context {S : Type}.
Variable w : world S.

Lemma attempt_sends dumped tr r :
  attempt dumped tr r ->
  length (physical_sends tr) <= 1 /\ length (attempts tr) = 1 /\ waits tr = [].
Proof. destruct 1; simpl; repeat split; lia. Qed.

(** The next answer of the environment, case by case. *)
Ltac answer :=
  match goal with
  | |- context [w _ ?a ?s] =>
      let x := fresh "x" in
      let s' := fresh "s" in
      destruct (w _ a s) as [x s']; destruct x; simpl
  end.

(** An execution record of known length as a retried send. *)
Ltac retried :=
  first
    [ apply retry_not_needed; by econstructor
    | apply (retry_timed_out _ _ [_]); by econstructor
    | apply (retry_timed_out _ _ [_; _]); by econstructor
    | eapply (retry_once _ _ [_] _ [_]); by econstructor
    | eapply (retry_once _ _ [_] _ [_; _]); by econstructor
    | eapply (retry_once _ _ [_; _] _ [_]); by econstructor
    | eapply (retry_once _ _ [_; _] _ [_; _]); by econstructor ].

Lemma send_set_retry_shape (wait : Q) (params : gmap string value) (s : S) :
  send_with_retry wait (json_dumps (set_request params))
    (exec w (send_set_retry json_dumps wait params) s).2
    (exec w (send_set_retry json_dumps wait params) s).1.1.
Proof.
  unfold send_set_retry, _send_json.
  destruct (json_dumps (set_request params)) as [text|e0]; simpl.
  all: repeat answer; retried.
Qed.

(** C3. Against every environment, an execution of [send_set_retry] is one
    send attempt; after a failure, one wait of [wait_reconnect] for the
    readiness flag; after a successful wait, exactly one more attempt whose
    outcome is the outcome of the call; after a timed-out wait, the
    link-unavailable error with the first failure as its cause.  So it
    calls [_send_json] at most twice, writes to the socket at most twice and
    waits at most once. *)
Theorem send_set_retry_at_most_two_sends
    (wait_reconnect : Q) (params : gmap string value) (s : S) :
  let ex := exec w (send_set_retry json_dumps wait_reconnect params) s in
  send_with_retry wait_reconnect (json_dumps (set_request params)) ex.2 ex.1.1 /\
  length (physical_sends ex.2) <= 2 /\
  length (attempts ex.2) <= 2 /\
  length (waits ex.2) <= 1.
Proof.
  intros ex. pose proof (send_set_retry_shape wait_reconnect params s) as H.
  fold ex in H. split; [done|].
  destruct H as [tr Ha|tr e Ha|tr e tr' r Ha Ha'];
    unfold physical_sends, attempts, waits in *;
    rewrite ?List.filter_app; simpl; rewrite ?length_app; simpl;
    apply attempt_sends in Ha; try apply attempt_sends in Ha';
    unfold physical_sends, attempts, waits in *.
  - destruct Ha as (? & -> & ->). simpl. lia.
  - destruct Ha as (? & -> & ->). simpl. lia.
  - destruct Ha as (? & -> & ->), Ha' as (? & -> & ->). simpl. lia.
Qed.

(** C8. When the first attempt fails, the wait succeeds and the second
    attempt fails too, the call raises the second attempt's exception as it
    is, and nothing follows the second attempt: no other wait, no third
    attempt. *)
Theorem send_set_retry_second_failure
    (wait_reconnect : Q) (params : gmap string value) (s : S)
    (tr1 tr2 rest : list obs) (e1 e2 : exn) :
  let ex := exec w (send_set_retry json_dumps wait_reconnect params) s in
  attempt (json_dumps (set_request params)) tr1 (inr e1) ->
  attempt (json_dumps (set_request params)) tr2 (inr e2) ->
  ex.2 = tr1 ++ ObsWait WsReady wait_reconnect true :: tr2 ++ rest ->
  ex.1.1 = inr e2 /\ rest = [].
Proof.
  intros ex Ha1 Ha2. subst ex. revert Ha1 Ha2.
  unfold send_set_retry, _send_json.
  destruct (json_dumps (set_request params)) as [text|e0]; simpl;
    intros Ha1 Ha2.
  all: repeat answer.
  all: inversion Ha1; inversion Ha2; subst; simpl; intros; by simplify_eq.
Qed.

Lemma send_set_shape (params : gmap string value) (s : S) :
  attempt (json_dumps (set_request params))
    (exec w (send_set json_dumps params) s).2
    (exec w (send_set json_dumps params) s).1.1.
Proof.
  unfold send_set, _send_json.
  destruct (json_dumps (set_request params)) as [text|e0]; simpl.
  all: repeat answer; by econstructor.
Qed.

(** X11. [send_set] is a single attempt against every environment: without
    a session it raises "not connected" and writes nothing; with a session
    and a request that [json.dumps] cannot serialise it raises the
    serialiser's exception and writes nothing; otherwise it writes the
    request once and returns or raises as the write does.  It never waits
    for a reconnect and never writes twice. *)
Theorem send_set_single_attempt (params : gmap string value) (s : S) :
  let ex := exec w (send_set json_dumps params) s in
  attempt (json_dumps (set_request params)) ex.2 ex.1.1 /\
  length (physical_sends ex.2) <= 1 /\
  waits ex.2 = [] /\
  (ex.1.1 = inl tt <-> length (successful_sends ex.2) = 1) /\
  (forall e, json_dumps (set_request params) = inr e -> physical_sends ex.2 = []).
Proof.
  intros ex. pose proof (send_set_shape params s) as H. fold ex in H.
  split; [done|].
  destruct H; simpl; repeat split; try lia; try done; congruence.
Qed.

(** X12. [send_set_retry] starts as [send_set] does: its record begins with
    the record of [send_set] run from the same point, and when that single
    attempt succeeds the two calls are the same execution. *)
Theorem send_set_retry_extends_send_set
    (wait_reconnect : Q) (params : gmap string value) (s : S) :
  let single := exec w (send_set json_dumps params) s in
  let retry := exec w (send_set_retry json_dumps wait_reconnect params) s in
  (exists rest, retry.2 = single.2 ++ rest) /\
  (single.1.1 = inl tt -> retry = single).
Proof.
  unfold send_set, send_set_retry, _send_json.
  destruct (json_dumps (set_request params)) as [text|e0]; simpl.
  all: repeat answer; split; try done; by eexists.
Qed.

(** X13. [send_set_retry] never reports a success it did not have: it
    returns normally exactly when one write returned normally, that write
    carries the serialised request and is the last thing it did, and no
    execution has two successful writes. *)
Theorem send_set_retry_success_is_one_write
    (wait_reconnect : Q) (params : gmap string value) (s : S) :
  let ex := exec w (send_set_retry json_dumps wait_reconnect params) s in
  (ex.1.1 = inl tt <-> length (successful_sends ex.2) = 1) /\
  length (successful_sends ex.2) <= 1 /\
  (ex.1.1 = inl tt ->
   exists tr ws text,
     json_dumps (set_request params) = inl text /\
     ex.2 = tr ++ [ObsSend ws text None]).
Proof.
  intros ex. pose proof (send_set_retry_shape wait_reconnect params s) as H.
  fold ex in H.
  destruct H as [tr Ha|tr e Ha|tr e tr' r Ha Ha'].
  - inversion Ha; subst. simpl. repeat split; try lia.
    intros _. by exists [ObsLoadWs (Some ws)], ws, text.
  - inversion Ha; subst; simpl; repeat split; try lia; try done.
  - inversion Ha; inversion Ha'; subst; simpl; repeat split; try lia; try done.
    all: intros _.
    all: first [ eexists [_; _; _], _, _; split; [|reflexivity]; congruence
               | eexists [_; _; _; _], _, _; split; [|reflexivity]; congruence ].
Qed.

End SenderFacts.

(** ** The sender next to the loop *)

Section EndToEnd.

Variable py_int : string -> option Z.
Variable py_float : string -> option PrimFloat.float.
Variable json_loads : string -> option value.
Variable bytes_decode : list Byte.byte -> string.
Variable RETRY_MIN_BACKOFF RETRY_MAX_BACKOFF : Q.
Variable json_dumps : value -> string + exn.

Local Abbreviation run := (run py_int py_float json_loads bytes_decode
                             RETRY_MIN_BACKOFF RETRY_MAX_BACKOFF).
Local Abbreviation world := (client_world py_int py_float json_loads bytes_decode
                               RETRY_MIN_BACKOFF RETRY_MAX_BACKOFF).

Lemma reachable_no_session es :
  receiving (run es new_client).1 = false -> _ws (run es new_client).1 = None.
Proof.
  intros Hrecv.
  destruct (reachable_session_consistent py_int py_float json_loads bytes_decode
              RETRY_MIN_BACKOFF RETRY_MAX_BACKOFF es) as (Hws & _).
  unfold has_session in Hws. rewrite Hrecv in Hws.
  by destruct (_ws (run es new_client).1).
Qed.

(** X14. On a client whose loop is not in its receive loop (never started,
    connecting, backing off, stopped) [send_set] fails at once with "not
    connected": nothing is written and the client is left as it was. *)
Theorem send_set_fails_when_disconnected
    (es : list event) (results : list (option exn)) (wins : list (list event))
    (params : gmap string value) :
  let c := (run es new_client).1 in
  receiving c = false ->
  exec world (send_set json_dumps params) (Sched c results wins) =
    (inr (RuntimeError NotConnected None), Sched c results wins,
     [ObsLoadWs None]).
Proof.
  intros c Hrecv. unfold send_set, _send_json, c. simpl.
  by rewrite reachable_no_session.
Qed.

(** X15. When the link is down and no connection succeeds during the wait,
    [send_set_retry] writes nothing and raises the "link not available"
    error whose cause is the "not connected" error of its first attempt;
    the loop has meanwhile taken every event of the window. *)
Theorem send_set_retry_link_never_recovers
    (es : list event) (results : list (option exn)) (wins : list (list event))
    (wait_reconnect : Q) (params : gmap string value) :
  let c := (run es new_client).1 in
  let ex := exec world (send_set_retry json_dumps wait_reconnect params)
              (Sched c results wins) in
  receiving c = false ->
  Forall no_connection (hd [] wins) ->
  ex.1.1 = inr (RuntimeError (LinkNotAvailable wait_reconnect)
                  (Some (RuntimeError NotConnected None))) /\
  ex.2 = [ObsLoadWs None; ObsWait WsReady wait_reconnect false] /\
  the_client ex.1.2 = (run (hd [] wins) c).1.
Proof.
  intros c ex Hrecv Hw. subst ex.
  unfold send_set_retry, _send_json. simpl.
  unfold c. rewrite reachable_no_session by done. simpl. fold c.
  rewrite (wait_ready_times_out py_int py_float json_loads bytes_decode
             RETRY_MIN_BACKOFF RETRY_MAX_BACKOFF);
    [done|apply reachable_session_consistent|done|done].
Qed.

(** X16. When the loop is waiting in [websockets.connect], the connection
    succeeds during a wait with a positive [wait_reconnect] and the request
    can be serialised, [send_set_retry] fails its first attempt without
    writing, is woken by the readiness flag, and writes the request once on
    the new session; if that write returns, so does the call. *)
Theorem send_set_retry_link_recovers
    (es : list event) (results : list (option exn))
    (window : list event) (wins : list (list event))
    (ws : connection) (now wait_reconnect : Q) (params : gmap string value)
    (text : string) :
  let c := (run es new_client).1 in
  let ex := exec world (send_set_retry json_dumps wait_reconnect params)
              (Sched c results ((EvConnected ws now :: window) :: wins)) in
  connecting c = true ->
  (0 < wait_reconnect)%Q ->
  json_dumps (set_request params) = inl text ->
  head results = None \/ head results = Some None ->
  ex.1.1 = inl tt /\
  ex.2 = [ObsLoadWs None; ObsWait WsReady wait_reconnect true;
          ObsLoadWs (Some ws); ObsSend ws text None] /\
  receiving (the_client ex.1.2) = true.
Proof.
  intros c ex Hconn Hpos Hdumps Hres. subst ex.
  assert (receiving c = false) as Hrecv.
  { unfold connecting, receiving in *. by destruct (_task c) as [[[] bk]|]. }
  assert (_ws_ready c = false) as Hready.
  { destruct (reachable_session_consistent py_int py_float json_loads
                bytes_decode RETRY_MIN_BACKOFF RETRY_MAX_BACKOFF es)
      as (_ & _ & _ & H). fold c in H. by rewrite H. }
  assert (_ws c = None) as Hws by by apply reachable_no_session.
  unfold send_set_retry, _send_json. rewrite Hdumps. simpl.
  rewrite Hws. simpl. unfold wait_for_flag.
  rewrite positive_timeout by done. simpl.
  rewrite Hready. unfold connecting in Hconn.
  destruct (_task c) as [[[] bk]|] eqn:Htask; try done. simpl.
  destruct window; simpl.
  all: destruct results as [|[err|] results]; simpl; try done.
  all: destruct Hres as [Hres|Hres]; discriminate.
Qed.

(** X23. With [wait_reconnect <= 0] there is no second attempt: the wait
    times out even when the readiness flag is set, so [send_set_retry]
    either succeeds at its first attempt or raises the "link not
    available" error that carries the first failure, having called
    [_send_json] once. *)
Theorem send_set_retry_without_wait
    (s : sched) (wait_reconnect : Q) (params : gmap string value) :
  let ex := exec world (send_set_retry json_dumps wait_reconnect params) s in
  (wait_reconnect <= 0)%Q ->
  length (attempts ex.2) = 1 /\
  (ex.1.1 = inl tt \/
   exists first_exc,
     ex.1.1 = inr (RuntimeError (LinkNotAvailable wait_reconnect)
                     (Some first_exc)) /\
     last ex.2 = Some (ObsWait WsReady wait_reconnect false)).
Proof.
  intros ex Hle. subst ex. apply Qle_bool_iff in Hle.
  unfold send_set_retry, _send_json.
  destruct (json_dumps (set_request params)) as [text|e0]; simpl.
  all: destruct (_ws (the_client s)) as [ws|]; simpl.
  all: try destruct (send_results s) as [|[e|] results]; simpl.
  all: unfold wait_for_flag; rewrite ?Hle; simpl.
  all: try destruct (run _ _); simpl.
  all: split; [done|]; (by left) || (right; by eexists).
Qed.

End EndToEnd.

(** ** The poller *)

Lemma poll_iteration_timestamps (t : poll_tick) (p : poller) (r : status_request) :
  (asks r (tick_now t, (poll_iteration t p).1.2) = true ->
   (last_sent r p + cadence r <= tick_now t)%Q /\
   ((poll_iteration t p).2 = true ->
    last_sent r (poll_iteration t p).1.1 = tick_now t)) /\
  (asks r (tick_now t, (poll_iteration t p).1.2) = false ->
   last_sent r (poll_iteration t p).1.1 = last_sent r p).
Proof.
  unfold poll_iteration, poll_objects, asks, cadence, last_sent.
  destruct (tick_ws t); [|by destruct r].
  destruct (Qle_bool GET_REQPRINTERPARA_SEC (tick_now t - t_para p)) eqn:Hp;
    [apply Qle_bool_iff in Hp|];
    destruct (para_res t); simpl;
    try (destruct (Qle_bool GET_PRINT_OBJECTS_SEC (tick_now t - t_objs p)) eqn:Ho;
         [apply Qle_bool_iff in Ho|]);
    destruct (objs_res t); destruct r; simpl; repeat split; try done; lra.
Qed.

Lemma poll_from_spacing (ticks : list poll_tick) (p : poller) (r : status_request) :
  spaced (cadence r) (last_sent r p) (request_times r (poll_from p ticks).1).
Proof.
  revert p. induction ticks as [|t ticks IH]; intros p; [done|].
  simpl. pose proof (poll_iteration_timestamps t p r) as [Hyes Hno].
  destruct (poll_iteration t p) as [[p' sent] again]. simpl in *.
  destruct again.
  - specialize (IH p'). destruct (poll_from p' ticks) as [its returned].
    unfold request_times in *. simpl in *.
    destruct (asks r (tick_now t, sent)); simpl.
    + destruct Hyes as [Hgap Hnow]; [done|]. rewrite Hnow in IH by done. done.
    + by rewrite Hno in IH.
  - unfold request_times. simpl.
    destruct (asks r (tick_now t, sent)); simpl; [|done].
    by destruct Hyes as [Hgap _].
Qed.

(** X17. The poller rate-limits itself: whatever the clock readings and
    however the sends end, two successive [ReqPrinterPara] queries are at
    least 5 s apart and two successive [reqPrintObjects] queries at least
    2 s apart, by the readings of the iterations that issued them; and since
    both timestamps start at 0.0, the first query of each kind is not
    issued before the clock reads 5 s and 2 s. *)
Theorem poller_request_spacing (ticks : list poll_tick) (r : status_request) :
  spaced (cadence r) 0 (request_times r (_periodic_gets ticks).1).
Proof. unfold _periodic_gets. by destruct r; apply (poll_from_spacing ticks (Poller 0 0)). Qed.

Lemma poll_from_no_session (ticks : list poll_tick) (p : poller) (i : nat)
    (t : poll_tick) :
  ticks !! i = Some t -> tick_ws t = None ->
  (poll_from p ticks).2 = true /\
  length (poll_from p ticks).1 <= S i /\
  (forall it, (poll_from p ticks).1 !! i = Some it -> it.2 = []).
Proof.
  revert p i. induction ticks as [|t0 ticks IH]; intros p i Hi Hws; [done|].
  destruct i as [|i]; simpl in Hi.
  - injection Hi as ->. simpl. unfold poll_iteration. rewrite Hws. simpl.
    repeat split; [lia|]. by intros it [= <-].
  - simpl. destruct (poll_iteration t0 p) as [[p' sent] again].
    destruct again.
    + destruct (IH p' i Hi Hws) as (Hret & Hlen & Hit).
      destruct (poll_from p' ticks) as [its returned]. simpl in *.
      repeat split; [done|lia|done].
    + simpl. repeat split; [lia|done].
Qed.

(** X18. The poller ends with the session: at the first iteration that
    finds [self._ws] unset it leaves its loop without a query, so on inputs
    whose (i+1)-th iteration has no session it has returned, has run at
    most i+1 iterations, and the (i+1)-th issued nothing. *)
Theorem poller_stops_without_session (ticks : list poll_tick) (i : nat)
    (t : poll_tick) :
  ticks !! i = Some t -> tick_ws t = None ->
  (_periodic_gets ticks).2 = true /\
  length (_periodic_gets ticks).1 <= S i /\
  (forall it, (_periodic_gets ticks).1 !! i = Some it -> it.2 = []).
Proof. apply poll_from_no_session. Qed.

Lemma poll_iteration_forgive (t : poll_tick) (p : poller) :
  poll_iteration (forgive t) p = poll_iteration t p.
Proof.
  unfold poll_iteration, poll_objects, forgive. simpl.
  destruct (tick_ws t); [|done].
  destruct (Qle_bool GET_REQPRINTERPARA_SEC (tick_now t - t_para p));
    destruct (para_res t); simpl;
    destruct (Qle_bool GET_PRINT_OBJECTS_SEC (tick_now t - t_objs p));
    by destruct (objs_res t).
Qed.

Lemma poll_from_forgive (ticks : list poll_tick) (p : poller) :
  poll_from p (forgive <$> ticks) = poll_from p ticks.
Proof.
  revert p. induction ticks as [|t ticks IH]; intros p; [done|].
  simpl. rewrite poll_iteration_forgive.
  destruct (poll_iteration t p) as [[p' sent] again].
  destruct again; [|done]. by rewrite IH.
Qed.

(** X19. A failed status query changes nothing for the poller: it neither
    stops nor retries before the cadence is due again.  Its iterations,
    their queries and its return are the same as if every failed send had
    succeeded. *)
Theorem poller_ignores_send_failures (ticks : list poll_tick) :
  _periodic_gets (forgive <$> ticks) = _periodic_gets ticks.
Proof. apply poll_from_forgive. Qed.

(** ** The heartbeat task *)

Lemma ping_rounds_no_probe (rounds : list hb_round) :
  List.filter is_probe (ping_rounds rounds).1 = [].
Proof.
  induction rounds as [|r rounds IH]; [done|]. simpl.
  destruct (round_slept r); [|done]. simpl.
  destruct (round_ws r); [|done].
  destruct (ping_res r); try done.
  by destruct (ping_rounds rounds).
Qed.

Lemma ping_rounds_close (rounds : list hb_round) (pre post : list hb_action)
    (ws : connection) :
  (ping_rounds rounds).1 = pre ++ ForceClose ws :: post ->
  post = [] /\ (ping_rounds rounds).2 = true /\
  (exists pre', pre = pre' ++ [Ping ws; LogPingFailed]) /\
  (exists r, r ∈ rounds /\ round_ws r = Some ws /\ ping_res r = Raised).
Proof.
  revert pre. induction rounds as [|r rounds IH]; intros pre; simpl.
  { by destruct pre. }
  destruct (round_slept r); simpl; [|by destruct pre].
  destruct (round_ws r) as [ws0|] eqn:Hws; [|by destruct pre].
  destruct (ping_res r) eqn:Hping.
  - destruct (ping_rounds rounds) as [acts returned]. simpl in *.
    destruct pre as [|a pre]; simpl; [done|]. intros [= <- Hacts].
    destruct (IH pre Hacts) as (Hpost & Hret & [pre' ->] & (r' & Hin & Hr')).
    repeat split; [done..| |].
    + by exists (Ping ws0 :: pre').
    + exists r'. split; [by apply list_elem_of_further|done].
  - destruct pre as [|a [|b [|c pre]]]; simpl; intros H; simplify_eq.
    + repeat split; [by exists []|].
      exists r. split; [apply list_elem_of_here|done].
    + by destruct pre.
  - destruct pre as [|a [|b pre]]; simpl; intros H; simplify_eq.
Qed.

Lemma ping_rounds_live (rounds : list hb_round) (ws : connection) :
  Ping ws ∈ (ping_rounds rounds).1 ->
  exists r, r ∈ rounds /\ round_slept r = true /\ round_ws r = Some ws.
Proof.
  induction rounds as [|r rounds IH]; simpl; [by intros ?%elem_of_nil|].
  destruct (round_slept r) eqn:Hslept; simpl; [|by intros ?%elem_of_nil].
  destruct (round_ws r) as [ws0|] eqn:Hws; [|by intros ?%elem_of_nil].
  assert (Ping ws = Ping ws0 ->
          exists r0, r0 ∈ r :: rounds /\ round_slept r0 = true /\
                     round_ws r0 = Some ws) as Hhere.
  { intros [= ->]. exists r. split; [apply list_elem_of_here|done]. }
  destruct (ping_res r).
  - destruct (ping_rounds rounds) as [acts returned]. simpl in *.
    intros [Heq|Hin]%elem_of_cons; [by apply Hhere|].
    destruct (IH Hin) as (r' & Hr' & H'). exists r'.
    split; [by apply list_elem_of_further|done].
  - intros [Heq|Hin]%elem_of_cons; [by apply Hhere|].
    apply elem_of_cons in Hin as [?|Hin]; [done|].
    apply elem_of_cons in Hin as [?|Hin]; [done|]. by apply elem_of_nil in Hin.
  - intros [Heq|Hin]%elem_of_cons; [by apply Hhere|]. by apply elem_of_nil in Hin.
Qed.

Lemma ping_rounds_stop (rounds : list hb_round) (i : nat) (r : hb_round) :
  rounds !! i = Some r -> healthy r = false ->
  (ping_rounds rounds).2 = true /\
  length (List.filter is_ping (ping_rounds rounds).1) <= S i.
Proof.
  revert i. induction rounds as [|r0 rounds IH]; intros i Hi Hr; [done|].
  destruct i as [|i]; simpl in Hi.
  - injection Hi as ->. unfold healthy in Hr. simpl.
    destruct (round_slept r); simpl in *; [|split; [done|lia]].
    destruct (round_ws r); [|split; [done|simpl; lia]].
    destruct (ping_res r); try done; split; try done; simpl; lia.
  - simpl. destruct (round_slept r0); simpl; [|split; [done|lia]].
    destruct (round_ws r0); [|split; [done|simpl; lia]].
    destruct (ping_res r0); try (split; [done|simpl; lia]).
    destruct (IH i Hi Hr) as [Hret Hlen].
    destruct (ping_rounds rounds) as [acts returned]. simpl in *.
    split; [done|lia].
Qed.

Section HeartbeatFacts.

Variable PROBE_ON_SILENCE_SECS : PrimFloat.float.

Local Abbreviation _heartbeat := (_heartbeat PROBE_ON_SILENCE_SECS).
Local Abbreviation silent := (silent PROBE_ON_SILENCE_SECS).

Lemma heartbeat_shape (s : hb_start) (rounds : list hb_round) :
  grace_slept s = true -> probe_res s <> Cancelled ->
  _heartbeat s rounds =
    ((if silent s then [Probe ReqPrinterPara] else []) ++ (ping_rounds rounds).1,
     (ping_rounds rounds).2).
Proof.
  intros Hslept Hres. unfold _heartbeat. rewrite Hslept. simpl.
  destruct (silent s).
  - destruct (probe_res s); try done; by destruct (ping_rounds rounds).
  - by destruct (ping_rounds rounds).
Qed.

(** X20. The heartbeat task probes at most once, and only as its first
    action: among all it does there is one [ReqPrinterPara] query when its
    grace sleep returned and the test of line 198 held (the binary64
    difference of the two clock readings exceeds [PROBE_ON_SILENCE_SECS]),
    and none otherwise; and a failed probe changes nothing of what
    follows. *)
Theorem heartbeat_probes_once (s : hb_start) (rounds : list hb_round) :
  let acts := (_heartbeat s rounds).1 in
  List.filter is_probe acts =
    (if grace_slept s && silent s then [Probe ReqPrinterPara] else []) /\
  (grace_slept s && silent s = true -> head acts = Some (Probe ReqPrinterPara)) /\
  (grace_slept s = true -> probe_res s <> Cancelled ->
   _heartbeat s rounds =
     ((if silent s then [Probe ReqPrinterPara] else []) ++ (ping_rounds rounds).1,
      (ping_rounds rounds).2)).
Proof.
  intros acts. subst acts. split; [|split].
  - unfold _heartbeat. destruct (grace_slept s); [|done]. simpl.
    pose proof (ping_rounds_no_probe rounds) as Hno.
    destruct (silent s); [|done].
    destruct (probe_res s); try done;
      destruct (ping_rounds rounds); simpl in *; by rewrite Hno.
  - unfold _heartbeat. intros [-> ->]%andb_true_iff. simpl.
    destruct (probe_res s); try done; by destruct (ping_rounds rounds).
  - apply heartbeat_shape.
Qed.

Lemma heartbeat_ping_rounds (s : hb_start) (rounds : list hb_round)
    (a : hb_action) :
  is_probe a = false -> a ∈ (_heartbeat s rounds).1 ->
  a ∈ (ping_rounds rounds).1 /\ (_heartbeat s rounds).2 = (ping_rounds rounds).2.
Proof.
  intros Ha. unfold _heartbeat.
  destruct (grace_slept s); simpl; [|by intros ?%elem_of_nil].
  destruct (silent s); [|done].
  destruct (probe_res s).
  - destruct (ping_rounds rounds). simpl.
    intros [->|?]%elem_of_cons; done.
  - destruct (ping_rounds rounds). simpl.
    intros [->|?]%elem_of_cons; done.
  - intros [->|?%elem_of_nil]%elem_of_cons; done.
Qed.

(** X21. The heartbeat task closes a connection only to force a reconnect
    after a failed ping: a [ws.close()] is the last thing the task does, it
    comes right after the failed ping of that same connection and its log
    line, and the task has returned; without a failed ping the task never
    closes anything. *)
Theorem heartbeat_closes_only_after_failed_ping
    (s : hb_start) (rounds : list hb_round)
    (pre post : list hb_action) (ws : connection) :
  (_heartbeat s rounds).1 = pre ++ ForceClose ws :: post ->
  post = [] /\ (_heartbeat s rounds).2 = true /\
  (exists pre', pre = pre' ++ [Ping ws; LogPingFailed]) /\
  (exists r, r ∈ rounds /\ round_ws r = Some ws /\ ping_res r = Raised).
Proof.
  unfold _heartbeat.
  destruct (grace_slept s); simpl; [|by destruct pre].
  destruct (silent s).
  - destruct (probe_res s).
    + destruct (ping_rounds rounds) as [acts returned] eqn:Hrounds. simpl.
      destruct pre as [|a pre]; simpl; [done|]. intros [= <- Hacts].
      pose proof (ping_rounds_close rounds pre post ws) as H.
      rewrite Hrounds in H. destruct (H Hacts) as (? & ? & [pre' ->] & ?).
      repeat split; [done..| |done]. by exists (Probe ReqPrinterPara :: pre').
    + destruct (ping_rounds rounds) as [acts returned] eqn:Hrounds. simpl.
      destruct pre as [|a pre]; simpl; [done|]. intros [= <- Hacts].
      pose proof (ping_rounds_close rounds pre post ws) as H.
      rewrite Hrounds in H. destruct (H Hacts) as (? & ? & [pre' ->] & ?).
      repeat split; [done..| |done]. by exists (Probe ReqPrinterPara :: pre').
    + destruct pre as [|a [|b pre]]; simpl; intros H; simplify_eq.
  - apply ping_rounds_close.
Qed.

(** X22. The heartbeat task pings only the session it has just read from
    [self._ws], after a full sleep; and it stops at the first round that is
    cancelled, finds no session or gets no pong: on inputs whose (i+1)-th
    round is such a round it has returned after at most i+1 pings. *)
Theorem heartbeat_pings_live_sessions (s : hb_start) (rounds : list hb_round) :
  (forall ws, Ping ws ∈ (_heartbeat s rounds).1 ->
     exists r, r ∈ rounds /\ round_slept r = true /\ round_ws r = Some ws) /\
  (forall i r, rounds !! i = Some r -> healthy r = false ->
     (_heartbeat s rounds).2 = true /\
     length (List.filter is_ping (_heartbeat s rounds).1) <= S i).
Proof.
  split.
  - intros ws Hin.
    destruct (heartbeat_ping_rounds s rounds (Ping ws) eq_refl Hin) as [Hin' _].
    by apply ping_rounds_live.
  - intros i r Hi Hr. destruct (ping_rounds_stop rounds i r Hi Hr) as [Hret Hlen].
    unfold _heartbeat.
    destruct (grace_slept s); simpl; [|split; [done|lia]].
    destruct (silent s); [|done].
    destruct (probe_res s); try (split; [done|simpl; lia]);
      destruct (ping_rounds rounds); simpl in *; done.
Qed.

End HeartbeatFacts.

(** ** The theorems at concrete inputs *)

(** Scenario 7 of the spec, run on the model. *)
Example scenario_final_snapshot :
  _state (Demo.run Demo.scenario new_client).1 = Demo.scenario_snapshot /\
  last (callbacks (Demo.run Demo.scenario new_client).2) = Some Demo.scenario_snapshot /\
  outbound (Demo.run Demo.scenario new_client).2 = ["ok"].
Proof. vm_compute. done. Qed.

Lemma heartbeat_acknowledged_witness :
  (Demo.step (EvFrame Demo.heartbeat 11 Returned Returned)
     Demo.connected).2 = [WsSend "ok"] /\
  _state (Demo.step (EvFrame Demo.heartbeat 11 Returned Returned)
            Demo.connected).1 = ∅.
Proof.
  destruct (heartbeat_acknowledged Runtime.int Runtime.float Runtime.loads
              Runtime.decode Demo.min_backoff Demo.max_backoff
              Demo.heartbeat 11 Returned Returned Demo.connected
              (<["ModeCode" := VStr "heart_beat"]> ∅))
    as (Heffs & _ & _ & Hstate).
  - vm_compute; reflexivity.
  - vm_compute; reflexivity.
  - vm_compute; reflexivity.
  - vm_compute; reflexivity.
  - split; [exact Heffs|exact Hstate].
Defined.

Lemma callback_failure_contained_witness :
  let after := Demo.step (EvFrame Demo.status 12 Returned Raised)
                 Demo.connected in
  _state after.1 !! "temp" = Some (VFloat 23.5%float) /\
  after.2 = [OnMessage (_state after.1); Log ERROR "K1C on_message failed"] /\
  receiving after.1 = true.
Proof.
  destruct (callback_failure_contained Runtime.int Runtime.float Runtime.loads
              Runtime.decode Demo.min_backoff Demo.max_backoff
              Demo.status 12 Returned Demo.connected
              (<["temp" := VStr "23.5"]> (<["state" := VStr "printing"]> ∅)))
    as (Hstate & Heffs & Hrecv & _).
  - vm_compute; reflexivity.
  - vm_compute; reflexivity.
  - intros after. subst after. unfold Demo.step.
    rewrite Heffs, Hstate, Hrecv. repeat split.
Defined.

Lemma binary_frame_as_text_witness :
  decode_ignore [Byte.x6f; Byte.xff; Byte.x6b] = "ok" /\
  Demo.step
    (EvFrame (Binary [Byte.x6f; Byte.xff; Byte.x6b]) 11 Returned Returned)
    Demo.connected =
  (set_last_rx 11 Demo.connected, []).
Proof.
  destruct (binary_frame_as_text Runtime.int Runtime.float Runtime.loads
              Demo.min_backoff Demo.max_backoff)
    as (Hdecode & _ & _ & _ & Hok).
  assert (decode_ignore [Byte.x6f; Byte.xff; Byte.x6b] = "ok") as Htext.
  { apply (Hdecode [111%Z] Byte.xff [107%Z]).
    - repeat constructor.
    - repeat constructor.
    - reflexivity. }
  split; [exact Htext|].
  apply (Hok [Byte.x6f; Byte.xff; Byte.x6b] 11%Q Returned Returned
           Demo.connected Htext).
Defined.

(** A binary status frame with an undecodable byte in front and a sequence
    cut short at its end is merged like the text frame. *)
Example binary_status_frame :
  let raw := Byte.xff :: list_byte_of_string
                           (Runtime.object_text Runtime.progress_frame)
             ++ [Byte.xe2; Byte.x82] in
  _state (Demo.step (EvFrame (Binary raw) 11 Returned Returned)
            Demo.connected).1 = <["progress" := VInt 42]> ∅.
Proof. vm_compute. done. Qed.

(** The decoder on a euro sign, a four-byte sequence cut short by a letter,
    an encoded surrogate and an overlong slash. *)
Example decoder_sample :
  Utf8.decode [Byte.xe2; Byte.x82; Byte.xac; Byte.xf0; Byte.x9f; Byte.x41;
               Byte.xed; Byte.xa0; Byte.x80; Byte.xc0; Byte.xaf; Byte.x42] =
    [8364; 65; 66]%Z.
Proof. vm_compute. done. Qed.

(** The decimal fractions of the example runtime, at its longest
    fraction. *)
Example float_sample :
  Runtime.float "0.0000000000000000001" = Some 1e-19%float /\
  Runtime.float "23.5" = Some 23.5%float /\
  Runtime.float "-0.1" = Some (-0.1)%float.
Proof. vm_compute. done. Qed.

Lemma connected_once_latched_witness :
  Demo.wait_first_connect 5 [] restarted = (true, restarted) /\
  _ws_ready restarted = false.
Proof.
  destruct (connected_once_latched Runtime.int Runtime.float Runtime.loads
              Runtime.decode Demo.min_backoff Demo.max_backoff)
    as (_ & _ & Hlater & _ & _).
  split.
  - apply (Hlater 5%Q [EvConnected (Connection 1) 10] Demo.started
             [EvClosed true 0.2; OpStopRequest; OpStopJoin true; OpStart]
             5%Q []).
    + vm_compute; reflexivity.
    + reflexivity.
  - vm_compute; reflexivity.
Defined.

(** After the same first connection, a call with timeout 0 returns false
    although the latch is set. *)
Lemma wait_first_connect_without_timeout :
  let first := Demo.wait_first_connect 5 [EvConnected (Connection 1) 10]
                 Demo.started in
  first.1 = true /\
  _connected_once first.2 = true /\
  (Demo.wait_first_connect 0 [] first.2).1 = false.
Proof. vm_compute. done. Qed.

Lemma last_rx_tracking_witness :
  last_rx_monotonic Demo.started = 0%Q /\
  last_rx_monotonic Demo.connected = 10%Q /\
  last_rx_monotonic
    (Demo.step (EvFrame (Text "ok") 11 Returned Returned)
       Demo.connected).1 = 11%Q /\
  last_rx_monotonic (Demo.step (EvClosed false 0.1) Demo.connected).1 =
    10%Q.
Proof.
  destruct (last_rx_tracking Runtime.int Runtime.float Runtime.loads
              Runtime.decode Demo.min_backoff Demo.max_backoff)
    as (_ & Hnever & _ & Hconn & Hframe & Hother).
  split; [|split; [|split]].
  - apply (Hnever [OpStart; EvTaskStart]). by repeat constructor.
  - apply (Hconn Demo.started (Connection 1) 10%Q). vm_compute; reflexivity.
  - apply (Hframe Demo.connected). vm_compute; reflexivity.
  - unfold Demo.step.
    rewrite (Hother (EvClosed false 0.1) Demo.connected eq_refl).
    apply (Hconn Demo.started (Connection 1) 10%Q). vm_compute; reflexivity.
Defined.

Lemma backoff_schedule_witness :
  let delays := sleeps (Demo.run four_failures Demo.started).2 in
  Sorted Qle delays /\
  Forall (fun d => (d <= Demo.max_backoff)%Q) delays /\
  length delays = 5%nat.
Proof.
  assert (0 <= Demo.min_backoff)%Q as Hmin by (vm_compute; discriminate).
  assert (Demo.min_backoff <= Demo.max_backoff)%Q as Hmax
    by (vm_compute; discriminate).
  destruct (backoff_schedule Runtime.int Runtime.float Runtime.loads
              Runtime.decode Demo.min_backoff Demo.max_backoff Hmin Hmax)
    as (_ & Hrun & _).
  destruct (Hrun [OpStart; EvTaskStart] four_failures) as [Hsorted Hbound].
  - repeat constructor; vm_compute; discriminate.
  - repeat constructor.
  - split; [exact Hsorted|]. split; [exact Hbound|]. vm_compute; reflexivity.
Defined.

Lemma send_set_retry_second_failure_witness :
  let ex := exec Demo.world (send_set_retry Runtime.dumps 6 fan_on) link_down in
  ex.1.1 = inr (OtherError "ConnectionClosed") /\
  length (physical_sends ex.2) = 1%nat.
Proof.
  intros ex.
  destruct (send_set_retry_second_failure Runtime.dumps Demo.world 6 fan_on
              link_down
              [ObsLoadWs None]
              [ObsLoadWs (Some (Connection 1));
               ObsSend (Connection 1) fan_on_text
                 (Some (OtherError "ConnectionClosed"))]
              []
              (RuntimeError NotConnected None)
              (OtherError "ConnectionClosed")) as [Hres _].
  - constructor.
  - by econstructor.
  - vm_compute; reflexivity.
  - split; [exact Hres|]. vm_compute; reflexivity.
Defined.

(** The same request when the link never comes back within the wait, and
    when it comes back and the second write goes through. *)
Example send_set_retry_link_lost :
  let ex := exec Demo.world (send_set_retry Runtime.dumps 6 fan_on)
              (Sched Demo.started [] [[EvConnectFailed 0.2; EvSleepDone]]) in
  ex.1.1 = inr (RuntimeError (LinkNotAvailable 6)
                  (Some (RuntimeError NotConnected None))) /\
  physical_sends ex.2 = [].
Proof. vm_compute. done. Qed.

Example send_set_retry_recovered :
  let ex := exec Demo.world (send_set_retry Runtime.dumps 6 fan_on)
              (Sched Demo.started [] [[EvConnected (Connection 1) 10]]) in
  ex.1.1 = inl tt /\
  length (attempts ex.2) = 2%nat /\
  length (physical_sends ex.2) = 1%nat.
Proof. vm_compute. done. Qed.

(** ** Further theorems at concrete inputs *)

(** The poller on the sample inputs: both queries at 100, the objects query
    every 2 s, the parameters query again at 105, nothing once the session
    is gone. *)
Example poller_sample :
  request_times ReqPrinterPara (_periodic_gets sample_ticks).1 = [100; 105]%Q /\
  request_times ReqPrintObjects (_periodic_gets sample_ticks).1 =
    [100; 102; 104; 106]%Q /\
  length (_periodic_gets sample_ticks).1 = 8%nat /\
  (_periodic_gets sample_ticks).2 = true.
Proof. vm_compute. done. Qed.

(** The heartbeat task on the sample inputs. *)
Example heartbeat_sample :
  _heartbeat sample_grace sample_start sample_rounds =
    ([Probe ReqPrinterPara; Ping (Connection 1); Ping (Connection 1);
      Ping (Connection 1); LogPingFailed; ForceClose (Connection 1)], true).
Proof. vm_compute. done. Qed.

(** Readings 10.3 and 0.3 with a grace period of 10 s: the rounded
    difference is exactly 10.0, the test of line 198 fails and no probe is
    sent. *)
Example heartbeat_rounded_silence :
  PrimFloat.sub 10.3 0.3 = 10%float /\
  silent 10 rounded_start = false /\
  List.filter is_probe (_heartbeat 10 rounded_start sample_rounds).1 = [].
Proof. vm_compute. done. Qed.

Lemma start_once_witness :
  _task Demo.started = Some (Loop Connecting Demo.min_backoff) /\
  _stop Demo.started = false /\
  Demo.step OpStart Demo.started = (Demo.started, []).
Proof.
  destruct (start_once Runtime.int Runtime.float Runtime.loads Runtime.decode
              Demo.min_backoff Demo.max_backoff new_client)
    as (_ & _ & Hfresh).
  destruct (Hfresh eq_refl) as (Htask & Hstop & _).
  split; [exact Htask|]. split; [exact Hstop|].
  apply (proj1 (proj2 (start_once Runtime.int Runtime.float Runtime.loads
                         Runtime.decode Demo.min_backoff Demo.max_backoff
                         Demo.started))).
  vm_compute. eexists. reflexivity.
Defined.

Lemma no_connection_attempt_after_stop_witness :
  loop_pc (Demo.step EvSleepDone stopping).1 = Some Exited.
Proof.
  destruct (no_connection_attempt_after_stop Runtime.int Runtime.float
              Runtime.loads Runtime.decode Demo.min_backoff Demo.max_backoff)
    as [_ Hexit].
  refine (proj1 (Hexit stopping
                   (py_min (Demo.min_backoff * (1.8 + 0.2)) Demo.max_backoff)
                   Demo.min_backoff _ _)).
  - vm_compute; reflexivity.
  - vm_compute; reflexivity.
Defined.

Lemma frames_keep_the_session_witness :
  receiving (Demo.step (EvFrame (Text "not json") 11 Raised Raised)
               Demo.connected).1 = true /\
  _ws (Demo.step (EvFrame (Text "not json") 11 Raised Raised)
         Demo.connected).1 = Some (Connection 1).
Proof.
  destruct (frames_keep_the_session Runtime.int Runtime.float Runtime.loads
              Runtime.decode Demo.min_backoff Demo.max_backoff
              (Text "not json") 11 Raised Raised Demo.connected)
    as (Hrecv & _ & Hws & _).
  - vm_compute; reflexivity.
  - discriminate.
  - discriminate.
  - split; [exact Hrecv|]. unfold Demo.step. rewrite Hws. vm_compute; reflexivity.
Defined.

Lemma merged_state_is_coerced_witness :
  coerce_value Runtime.int Runtime.float (VStr "printing") = VStr "printing".
Proof.
  apply (proj2 (merged_state_is_coerced Runtime.int Runtime.float Runtime.loads
                  Runtime.decode Demo.min_backoff Demo.max_backoff
                  Demo.scenario) "state").
  vm_compute; reflexivity.
Defined.

Lemma backoff_within_bounds_witness :
  Forall (fun d => (Demo.min_backoff <= d /\ d <= Demo.max_backoff)%Q)
    (sleeps (Demo.run ([OpStart; EvTaskStart] ++ four_failures) new_client).2).
Proof.
  refine (proj2 (backoff_within_bounds Runtime.int Runtime.float Runtime.loads
                   Runtime.decode Demo.min_backoff Demo.max_backoff _ _
                   ([OpStart; EvTaskStart] ++ four_failures) _)).
  - vm_compute; discriminate.
  - vm_compute; discriminate.
  - repeat constructor; vm_compute; discriminate.
Defined.

Lemma backoff_grows_geometrically_witness :
  exists d, sleeps (Demo.run four_failures Demo.started).2 !! 2%nat = Some d /\
            (py_min (after_failures Demo.min_backoff 3) Demo.max_backoff <= d)%Q.
Proof.
  eexists. split; [vm_compute; reflexivity|].
  refine (proj2 (backoff_grows_geometrically Runtime.int Runtime.float
                   Runtime.loads Runtime.decode Demo.min_backoff
                   Demo.max_backoff _ _ [OpStart; EvTaskStart] four_failures
                   _ _ 2%nat _ _)).
  - vm_compute; discriminate.
  - vm_compute; discriminate.
  - repeat constructor; vm_compute; discriminate.
  - repeat constructor.
  - vm_compute; reflexivity.
Defined.

Lemma send_set_fails_when_disconnected_witness :
  exec Demo.world (send_set Runtime.dumps fan_on) (Sched Demo.started [] []) =
    (inr (RuntimeError NotConnected None), Sched Demo.started [] [],
     [ObsLoadWs None]).
Proof.
  apply (send_set_fails_when_disconnected Runtime.int Runtime.float
           Runtime.loads Runtime.decode Demo.min_backoff Demo.max_backoff
           Runtime.dumps [OpStart; EvTaskStart] [] [] fan_on).
  vm_compute; reflexivity.
Defined.

Lemma send_set_retry_link_never_recovers_witness :
  (exec Demo.world (send_set_retry Runtime.dumps 6 fan_on)
     (Sched Demo.started [] [[EvConnectFailed 0.2; EvSleepDone]])).1.1 =
    inr (RuntimeError (LinkNotAvailable 6)
           (Some (RuntimeError NotConnected None))).
Proof.
  refine (proj1 (send_set_retry_link_never_recovers Runtime.int Runtime.float
                   Runtime.loads Runtime.decode Demo.min_backoff
                   Demo.max_backoff Runtime.dumps [OpStart; EvTaskStart] []
                   [[EvConnectFailed 0.2; EvSleepDone]] 6 fan_on _ _)).
  - vm_compute; reflexivity.
  - repeat constructor.
Defined.

Lemma send_set_retry_link_recovers_witness :
  (exec Demo.world (send_set_retry Runtime.dumps 6 fan_on) link_returns).1.1 =
    inl tt.
Proof.
  refine (proj1 (send_set_retry_link_recovers Runtime.int Runtime.float
                   Runtime.loads Runtime.decode Demo.min_backoff
                   Demo.max_backoff Runtime.dumps [OpStart; EvTaskStart] []
                   [] [] (Connection 1) 10 6 fan_on fan_on_text _ _ _ _)).
  - vm_compute; reflexivity.
  - reflexivity.
  - vm_compute; reflexivity.
  - left. reflexivity.
Defined.

Lemma send_set_retry_success_is_one_write_witness :
  exists tr ws text,
    Runtime.dumps (set_request fan_on) = inl text /\
    (exec Demo.world (send_set_retry Runtime.dumps 6 fan_on) link_returns).2 =
      tr ++ [ObsSend ws text None].
Proof.
  apply (proj2 (proj2 (send_set_retry_success_is_one_write Runtime.dumps
                         Demo.world 6 fan_on link_returns))).
  vm_compute; reflexivity.
Defined.

Lemma send_set_retry_without_wait_witness :
  let ex := exec Demo.world (send_set_retry Runtime.dumps 0 fan_on)
              (Sched Demo.connected [Some (OtherError "ConnectionClosed")] []) in
  length (attempts ex.2) = 1%nat /\
  ex.1.1 = inr (RuntimeError (LinkNotAvailable 0)
                  (Some (OtherError "ConnectionClosed"))).
Proof.
  intros ex.
  destruct (send_set_retry_without_wait Runtime.int Runtime.float Runtime.loads
              Runtime.decode Demo.min_backoff Demo.max_backoff Runtime.dumps
              (Sched Demo.connected [Some (OtherError "ConnectionClosed")] [])
              0 fan_on) as [Hone _].
  - vm_compute; discriminate.
  - split; [exact Hone|]. vm_compute; reflexivity.
Defined.

(** A request that cannot be serialised: with a live session both attempts
    of [send_set_retry] raise before any write, and the call raises the
    serialiser's exception. *)
Example send_set_retry_not_serialised :
  let ex := exec Demo.world (send_set_retry Runtime.dumps 6 too_long)
              (Sched Demo.connected [] []) in
  ex.1.1 = inr (OtherError "ValueError") /\
  physical_sends ex.2 = [] /\
  length (attempts ex.2) = 2%nat.
Proof. vm_compute. done. Qed.

Lemma poller_stops_without_session_witness :
  (_periodic_gets sample_ticks).2 = true /\
  length (_periodic_gets sample_ticks).1 <= 8.
Proof.
  destruct (poller_stops_without_session sample_ticks 7
              (PollTick 106.2 None Returned Returned true))
    as (Hret & Hlen & _).
  - vm_compute; reflexivity.
  - reflexivity.
  - split; [exact Hret|exact Hlen].
Defined.

Lemma heartbeat_probes_once_witness :
  head (_heartbeat sample_grace sample_start sample_rounds).1 =
    Some (Probe ReqPrinterPara).
Proof.
  apply (proj1 (proj2 (heartbeat_probes_once sample_grace sample_start
                         sample_rounds))).
  vm_compute; reflexivity.
Defined.

Lemma heartbeat_closes_only_after_failed_ping_witness :
  (_heartbeat sample_grace sample_start sample_rounds).2 = true /\
  exists r, r ∈ sample_rounds /\ round_ws r = Some (Connection 1) /\
            ping_res r = Raised.
Proof.
  destruct (heartbeat_closes_only_after_failed_ping sample_grace sample_start
              sample_rounds
              [Probe ReqPrinterPara; Ping (Connection 1); Ping (Connection 1);
               Ping (Connection 1); LogPingFailed]
              [] (Connection 1))
    as (_ & Hret & _ & Hround).
  - vm_compute; reflexivity.
  - split; [exact Hret|exact Hround].
Defined.

Lemma heartbeat_pings_live_sessions_witness :
  (_heartbeat sample_grace sample_start sample_rounds).2 = true /\
  length (List.filter is_ping
            (_heartbeat sample_grace sample_start sample_rounds).1) <= 3.
Proof.
  apply (proj2 (heartbeat_pings_live_sessions sample_grace sample_start
                  sample_rounds) 2%nat
           (HbRound true (Some (Connection 1)) Raised)).
  - reflexivity.
  - reflexivity.
Defined.
